(** * The STT command adapter of talkie: model and recognizer commands

    A shallow embedding of [src/tcl/stt/stt.c] (with the structures of
    [src/tcl/stt/stt.h]): the two destructors [model_delete] and
    [recognizer_delete] and the two command handlers [RecognizerObjCmd] and
    [ModelObjCmd].

    The C code threads three kinds of state through its calls: the context
    structures on the heap, the host interpreter, and the engine behind the
    [EngineAPI] function table.  The embedding keeps them in one [World]
    and writes the functions in a state-and-fault monad [M]; every call
    that leaves the file (into the engine or into the Tcl host) is logged,
    in program order, together with the memory the callee could observe. *)

From Stdlib Require Import ZArith String Ascii List Strings.Byte.
From stdpp Require Import base option gmap strings list.

Local Open Scope string_scope.
Local Open Scope Z_scope.
Local Open Scope list_scope.

(** ** Pointers *)

(** Address of a [ModelCtx] or [RecognizerCtx] structure.  A C pointer to
    one is an [option addr]: [None] is [NULL]. *)
Definition addr := positive.

(** An opaque engine handle (the [void *] fields); [None] is [NULL]. *)
Definition ptr := positive.

(** [ClientData] is the context pointer the host hands back to a command. *)
Definition ClientData := option addr.

Definition TCL_OK : Z := 0.
Definition TCL_ERROR : Z := 1.

(** ** Host objects *)

(** A [Tcl_Obj] is described by what the three host accessors used in the
    file return on it: its string form, its byte-array view (data pointer
    and length, as [Tcl_GetByteArrayFromObj] hands them back) and its
    integer view ([None] when [Tcl_GetIntFromObj] does not return TCL_OK). *)
Record Tcl_Obj := mkObj {
  Tcl_GetString : string;
  Tcl_GetByteArrayFromObj : option (list byte) * Z;
  Tcl_GetIntFromObj : option Z
}.

(** The objects the handlers build for the interpreter result. *)
Inductive ResultObj :=
| BooleanObj (b : bool)
| StringObj (s : string).

(** [Tcl_NewBooleanObj(v)]: any non-zero int is true. *)
Definition Tcl_NewBooleanObj (v : Z) : ResultObj := BooleanObj (negb (v =? 0)).

(** [Tcl_NewStringObj(s, -1)]: the whole NUL-terminated string. *)
Definition Tcl_NewStringObj (s : string) : ResultObj := StringObj s.

(** [strcmp], on the unsigned character order; only its sign matters. *)
Definition strcmp (a b : string) : Z :=
  match String.compare a b with
  | Eq => 0
  | Lt => -1
  | Gt => 1
  end.

(** The double quote character, for the messages that quote their input. *)
Definition dquote : string := String (ascii_of_nat 34) EmptyString.

(** ** Calls that leave the file *)

Inductive Block :=
| StringBlock (s : string)
| ModelCtxBlock (a : addr)
| RecognizerCtxBlock (a : addr).

Inductive Event :=
(* the seven entries of EngineAPI *)
| Call_model_free (model : ptr)
| Call_recognizer_free (recognizer : ptr)
| Call_accept_waveform (recognizer : option ptr) (data : list byte) (length : Z)
| Call_get_text (ctx : addr)
| Call_get_final (ctx : addr)
| Call_reset (ctx : addr)
| Call_create_recognizer (model_ctx : addr) (sample_rate : Z)
(* the Tcl host *)
| Host_ckfree (b : Block)
| Host_DecrRefCount (o : Tcl_Obj)
| Host_AppendResult (parts : list string)
| Host_SetObjResult (o : ResultObj)
| Host_WrongNumArgs (n : Z) (objv : list Tcl_Obj) (message : string)
| Host_GetIntFromObj (o : Tcl_Obj)
| Host_DeleteCommand (name : string).

Definition is_engine_call (e : Event) : bool :=
  match e with
  | Call_model_free _ | Call_recognizer_free _ | Call_accept_waveform _ _ _
  | Call_get_text _ | Call_get_final _ | Call_reset _
  | Call_create_recognizer _ _ => true
  | _ => false
  end.

(** The text an error leaves in the interpreter: what [Tcl_AppendResult]
    was given, joined. *)
Definition message_of (e : Event) : option string :=
  match e with
  | Host_AppendResult parts => Some (String.concat EmptyString parts)
  | _ => None
  end.

Inductive FaultKind :=
| NullPointer        (* dereference of NULL *)
| DanglingPointer    (* dereference of a freed context *)
| NullFunction       (* call through a NULL function pointer *)
| OutOfBounds.       (* objv read past objc *)

Section STT.

(** The engine library is outside the file.  Its state is abstract, and
    each entry of its table is a function of its arguments and that state.
    The engine is taken not to write to the context structures of the
    adapter; the recognizer context and the command that a create_recognizer
    entry sets up are not modelled either: a world comes with its contexts
    and its commands in place. *)
Context {EngineState : Type}.

(** ** The structures of stt.h *)

Record EngineAPI := mkAPI {
  model_free : option (ptr -> EngineState -> EngineState);
  recognizer_free : option (ptr -> EngineState -> EngineState);
  accept_waveform :
    option (option ptr -> list byte -> Z -> EngineState -> Z * EngineState);
  get_text : option (addr -> EngineState -> option string * EngineState);
  get_final : option (addr -> EngineState -> option string * EngineState);
  reset : option (addr -> EngineState -> EngineState);
  create_recognizer : option (addr -> Z -> EngineState -> Z * EngineState)
}.

Record ModelCtx := mkModelCtx {
  model : option ptr;
  model_path : option string;
  engine_type : option string;
  cmdname : option Tcl_Obj;
  engine_funcs : option EngineAPI
}.

(** The fields [interp] and [sample_rate] of the C structure are left out:
    none of the four functions reads or writes them. *)
Record RecognizerCtx := mkRecognizerCtx {
  recognizer : option ptr;
  rec_model : option ptr;
  model_ctx : option addr;
  rec_cmdname : option Tcl_Obj;
  closed : Z
}.

Definition set_model (v : option ptr) (c : ModelCtx) : ModelCtx :=
  mkModelCtx v (model_path c) (engine_type c) (cmdname c) (engine_funcs c).
Definition set_model_path (v : option string) (c : ModelCtx) : ModelCtx :=
  mkModelCtx (model c) v (engine_type c) (cmdname c) (engine_funcs c).
Definition set_engine_type (v : option string) (c : ModelCtx) : ModelCtx :=
  mkModelCtx (model c) (model_path c) v (cmdname c) (engine_funcs c).
Definition set_cmdname (v : option Tcl_Obj) (c : ModelCtx) : ModelCtx :=
  mkModelCtx (model c) (model_path c) (engine_type c) v (engine_funcs c).

Definition set_recognizer (v : option ptr) (c : RecognizerCtx) : RecognizerCtx :=
  mkRecognizerCtx v (rec_model c) (model_ctx c) (rec_cmdname c) (closed c).
Definition set_rec_model (v : option ptr) (c : RecognizerCtx) : RecognizerCtx :=
  mkRecognizerCtx (recognizer c) v (model_ctx c) (rec_cmdname c) (closed c).
Definition set_rec_cmdname (v : option Tcl_Obj) (c : RecognizerCtx) : RecognizerCtx :=
  mkRecognizerCtx (recognizer c) (rec_model c) (model_ctx c) v (closed c).
Definition set_closed (v : Z) (c : RecognizerCtx) : RecognizerCtx :=
  mkRecognizerCtx (recognizer c) (rec_model c) (model_ctx c) (rec_cmdname c) v.

(** ** The world *)

(** The heap of live context structures.  [ckfree] removes one. *)
Record Mem := mkMem {
  models : gmap addr ModelCtx;
  recognizers : gmap addr RecognizerCtx
}.

(** Modelled from the spec: the registration of the exposed commands
    ([Tcl_CreateObjCommand] with a handler, its context and its destructor)
    is done where models are loaded and recognizers created, outside
    stt.c.  The spec says that deleting the exposed command of an object
    triggers its destructor; a [Command] records which destructor, on
    which context. *)
Inductive Command :=
| ModelCommand (cd : addr)
| RecognizerCommand (cd : addr).

Record World := mkWorld {
  mem : Mem;
  commands : gmap string Command;
  engine : EngineState;
  trace : list (Event * Mem)
}.

Definition events (w : World) : list Event := (trace w).*1.

(** The calls made into the engine so far. *)
Definition engine_calls (w : World) : list Event :=
  List.filter is_engine_call (events w).

(** ** The monad *)

Inductive Outcome (A : Type) :=
| Ok (a : A) (w : World)
| Fault (k : FaultKind).
Global Arguments Ok {A} a w.
Global Arguments Fault {A} k.

Definition M (A : Type) : Type := World -> Outcome A.

Global Instance M_ret : MRet M := fun A a w => Ok a w.
Global Instance M_bind : MBind M := fun A B f m w =>
  match m w with
  | Ok a w' => f a w'
  | Fault k => Fault k
  end.

Definition fault {A} (k : FaultKind) : M A := fun _ => Fault k.

(** A call that leaves the file is appended to the log, with the memory
    as it is when the call is made. *)
Definition log (e : Event) (w : World) : World :=
  mkWorld (mem w) (commands w) (engine w) (trace w ++ [(e, mem w)]).

Definition emit (e : Event) : M unit := fun w => Ok tt (log e w).

(** The engine moves to a new state. *)
Definition with_engine (e : EngineState) (w : World) : World :=
  mkWorld (mem w) (commands w) e (trace w).

Definition run_engine {A} (f : EngineState -> A * EngineState) : M A := fun w =>
  Ok (f (engine w)).1 (with_engine (f (engine w)).2 w).

Definition run_engine_ (f : EngineState -> EngineState) : M unit := fun w =>
  Ok tt (with_engine (f (engine w)) w).

(** [p->...] on a pointer that may be NULL. *)
Definition deref (p : option addr) : M addr :=
  match p with
  | Some a => mret a
  | None => fault NullPointer
  end.

(** A call through a function pointer that may be NULL. *)
Definition fn_ptr {F} (f : option F) : M F :=
  match f with
  | Some g => mret g
  | None => fault NullFunction
  end.

(** [api->...] on the table pointer. *)
Definition table (api : option EngineAPI) : M EngineAPI :=
  match api with
  | Some t => mret t
  | None => fault NullPointer
  end.

(** The heap after a write to, or the release of, one structure. *)
Definition put_model (a : addr) (c : ModelCtx) (w : World) : World :=
  mkWorld (mkMem (<[a := c]> (models (mem w))) (recognizers (mem w)))
          (commands w) (engine w) (trace w).

Definition put_rec (a : addr) (c : RecognizerCtx) (w : World) : World :=
  mkWorld (mkMem (models (mem w)) (<[a := c]> (recognizers (mem w))))
          (commands w) (engine w) (trace w).

Definition drop_model (a : addr) (w : World) : World :=
  mkWorld (mkMem (delete a (models (mem w))) (recognizers (mem w)))
          (commands w) (engine w) (trace w).

Definition drop_rec (a : addr) (w : World) : World :=
  mkWorld (mkMem (models (mem w)) (delete a (recognizers (mem w))))
          (commands w) (engine w) (trace w).

(** Reading and writing one field of a context. *)
Definition load_model {A} (a : addr) (field : ModelCtx -> A) : M A := fun w =>
  match models (mem w) !! a with
  | Some c => Ok (field c) w
  | None => Fault DanglingPointer
  end.

Definition store_model (a : addr) (upd : ModelCtx -> ModelCtx) : M unit := fun w =>
  match models (mem w) !! a with
  | Some c => Ok tt (put_model a (upd c) w)
  | None => Fault DanglingPointer
  end.

Definition load_rec {A} (a : addr) (field : RecognizerCtx -> A) : M A := fun w =>
  match recognizers (mem w) !! a with
  | Some c => Ok (field c) w
  | None => Fault DanglingPointer
  end.

Definition store_rec (a : addr) (upd : RecognizerCtx -> RecognizerCtx) : M unit := fun w =>
  match recognizers (mem w) !! a with
  | Some c => Ok tt (put_rec a (upd c) w)
  | None => Fault DanglingPointer
  end.

(** [objv[i]]; the handlers only read below [objc]. *)
Definition arg (objv : list Tcl_Obj) (i : nat) : M Tcl_Obj :=
  match objv !! i with
  | Some o => mret o
  | None => fault OutOfBounds
  end.

(** ** The host calls *)

Definition ckfree_string (s : string) : M unit := emit (Host_ckfree (StringBlock s)).

(** [ckfree] of the context itself: the structure is gone from the heap. *)
Definition release_model (a : addr) : M unit := fun w => Ok tt (drop_model a w).

Definition release_rec (a : addr) : M unit := fun w => Ok tt (drop_rec a w).

Definition ckfree_model (a : addr) : M unit :=
  emit (Host_ckfree (ModelCtxBlock a));; release_model a.

Definition ckfree_rec (a : addr) : M unit :=
  emit (Host_ckfree (RecognizerCtxBlock a));; release_rec a.

Definition Tcl_DecrRefCount (o : Tcl_Obj) : M unit := emit (Host_DecrRefCount o).
Definition Tcl_AppendResult (parts : list string) : M unit := emit (Host_AppendResult parts).
Definition Tcl_SetObjResult (o : ResultObj) : M unit := emit (Host_SetObjResult o).
Definition Tcl_WrongNumArgs (n : Z) (objv : list Tcl_Obj) (message : string) : M unit :=
  emit (Host_WrongNumArgs n objv message).

(** [Tcl_GetIntFromObj(interp, o, &v)]: the host leaves its own message in
    the interpreter when it fails, so the call is logged. *)
Definition GetIntFromObj (o : Tcl_Obj) : M (option Z) :=
  emit (Host_GetIntFromObj o);; mret (Tcl_GetIntFromObj o).

(** ** Cleanup functions *)

(** The engine table a recognizer reaches through its parent, as
    [recognizer_delete] looks for it: NULL parent or NULL table give none. *)
Definition parent_table (w : World) (ctx : RecognizerCtx) : option EngineAPI :=
  m ← model_ctx ctx; mc ← models (mem w) !! m; engine_funcs mc.

Definition model_delete (cd : ClientData) : M unit :=
  match cd with
  | None => mret tt
  | Some ctx =>
      m ← load_model ctx model;
      ef ← (match m with
            | Some _ => load_model ctx engine_funcs
            | None => mret None
            end);
      match m, ef with
      | Some h, Some api =>
          f ← fn_ptr (model_free api);
          emit (Call_model_free h);;
          run_engine_ (f h);;
          store_model ctx (set_model None)
      | _, _ => mret tt
      end;;
      p ← load_model ctx model_path;
      match p with
      | Some s => ckfree_string s;; store_model ctx (set_model_path None)
      | None => mret tt
      end;;
      t ← load_model ctx engine_type;
      match t with
      | Some s => ckfree_string s;; store_model ctx (set_engine_type None)
      | None => mret tt
      end;;
      n ← load_model ctx cmdname;
      match n with
      | Some o => Tcl_DecrRefCount o;; store_model ctx (set_cmdname None)
      | None => mret tt
      end;;
      ckfree_model ctx
  end.

Definition recognizer_delete (cd : ClientData) : M unit :=
  match cd with
  | None => mret tt
  | Some ctx =>
      store_rec ctx (set_closed 1);;
      r ← load_rec ctx recognizer;
      mc ← (match r with
            | Some _ => load_rec ctx model_ctx
            | None => mret None
            end);
      ef ← (match mc with
            | Some m => load_model m engine_funcs
            | None => mret None
            end);
      match r, ef with
      | Some h, Some api =>
          f ← fn_ptr (recognizer_free api);
          emit (Call_recognizer_free h);;
          run_engine_ (f h);;
          store_rec ctx (set_recognizer None)
      | _, _ => mret tt
      end;;
      store_rec ctx (set_rec_model None);;
      n ← load_rec ctx rec_cmdname;
      match n with
      | Some o => Tcl_DecrRefCount o;; store_rec ctx (set_rec_cmdname None)
      | None => mret tt
      end;;
      ckfree_rec ctx
  end.

(** The command table of the host: lookup and removal of a name. *)
Definition registered (name : string) : M (option Command) := fun w =>
  Ok (commands w !! name) w.

Definition unregister (name : string) : M unit := fun w =>
  Ok tt (mkWorld (mem w) (delete name (commands w)) (engine w) (trace w)).

(** Modelled from the spec: the code that registers the two handlers with
    their destructors is outside stt.c.  By the spec, close unregisters
    the exposed command, which triggers the destructor of the object; on
    a name that is not registered the host does nothing (and the handlers
    ignore what it returns). *)
Definition Tcl_DeleteCommand (name : string) : M unit :=
  emit (Host_DeleteCommand name);;
  c ← registered name;
  match c with
  | None => mret tt
  | Some (ModelCommand a) => unregister name;; model_delete (Some a)
  | Some (RecognizerCommand a) => unregister name;; recognizer_delete (Some a)
  end.

(** ** Calls through the engine table *)

Definition call_accept_waveform (api : option EngineAPI)
    (h : option ptr) (data : list byte) (len : Z) : M Z :=
  t ← table api;
  f ← fn_ptr (accept_waveform t);
  emit (Call_accept_waveform h data len);;
  run_engine (f h data len).

Definition call_get_text (api : option EngineAPI) (ctx : addr) : M (option string) :=
  t ← table api;
  f ← fn_ptr (get_text t);
  emit (Call_get_text ctx);;
  run_engine (f ctx).

Definition call_get_final (api : option EngineAPI) (ctx : addr) : M (option string) :=
  t ← table api;
  f ← fn_ptr (get_final t);
  emit (Call_get_final ctx);;
  run_engine (f ctx).

Definition call_reset (api : option EngineAPI) (ctx : addr) : M unit :=
  t ← table api;
  f ← fn_ptr (reset t);
  emit (Call_reset ctx);;
  run_engine_ (f ctx).

(** The C idiom [result ? result : EMPTY], EMPTY the empty string literal. *)
Definition or_empty (result : option string) : string :=
  match result with
  | Some s => s
  | None => EmptyString
  end.

(** ** Unified recognizer API *)

(** The guard [!ctx || ctx->closed] has two ways in; both end here. *)
Definition recognizer_closed : M Z :=
  Tcl_AppendResult ["recognizer closed"];; mret TCL_ERROR.

(** The handler past its guard, on a context that is neither NULL nor
    closed. *)
Definition RecognizerObjCmd_open (ctx : addr) (objv : list Tcl_Obj) : M Z :=
  let objc := Z.of_nat (length objv) in
  if objc <? 2 then
    Tcl_WrongNumArgs 1 objv "subcommand ?args?";; mret TCL_ERROR
  else
    o1 ← arg objv 1;
    let sub := Tcl_GetString o1 in
    mc ← load_rec ctx model_ctx;
    m ← deref mc;
    api ← load_model m engine_funcs;
    if strcmp sub "accept-waveform" =? 0 then
      if negb (objc =? 3) then
        Tcl_WrongNumArgs 2 objv "audio_data";; mret TCL_ERROR
      else
        o2 ← arg objv 2;
        let (data, len) := Tcl_GetByteArrayFromObj o2 in
        match data with
        | None => Tcl_AppendResult ["invalid audio data"];; mret TCL_ERROR
        | Some bytes =>
            if len <=? 0 then
              Tcl_AppendResult ["invalid audio data"];; mret TCL_ERROR
            else
              h ← load_rec ctx recognizer;
              result ← call_accept_waveform api h bytes len;
              Tcl_SetObjResult (Tcl_NewBooleanObj result);;
              mret TCL_OK
        end
    else if strcmp sub "text" =? 0 then
      result ← call_get_text api ctx;
      Tcl_SetObjResult (Tcl_NewStringObj (or_empty result));;
      mret TCL_OK
    else if strcmp sub "final-result" =? 0 then
      result ← call_get_final api ctx;
      Tcl_SetObjResult (Tcl_NewStringObj (or_empty result));;
      mret TCL_OK
    else if strcmp sub "reset" =? 0 then
      call_reset api ctx;;
      Tcl_SetObjResult (Tcl_NewStringObj "ok");;
      mret TCL_OK
    else if strcmp sub "close" =? 0 then
      o0 ← arg objv 0;
      Tcl_DeleteCommand (Tcl_GetString o0);;
      Tcl_SetObjResult (Tcl_NewStringObj "ok");;
      mret TCL_OK
    else
      Tcl_AppendResult [("unknown subcommand " ++ dquote)%string; sub; dquote];;
      mret TCL_ERROR.

Definition RecognizerObjCmd (cd : ClientData) (objv : list Tcl_Obj) : M Z :=
  match cd with
  | None => recognizer_closed
  | Some ctx =>
      c ← load_rec ctx closed;
      if negb (c =? 0) then recognizer_closed
      else RecognizerObjCmd_open ctx objv
  end.

(** ** Unified model API *)

Definition create_recognizer_unsupported (ctx : addr) : M Z :=
  t ← load_model ctx engine_type;
  Tcl_AppendResult ["create_recognizer not implemented for engine: ";
                    default "unknown" t];;
  mret TCL_ERROR.

Definition ModelObjCmd (cd : ClientData) (objv : list Tcl_Obj) : M Z :=
  let objc := Z.of_nat (length objv) in
  match cd with
  | None => Tcl_AppendResult ["model deleted"];; mret TCL_ERROR
  | Some ctx =>
      if objc <? 2 then
        Tcl_WrongNumArgs 1 objv "subcommand ?args?";; mret TCL_ERROR
      else
        o1 ← arg objv 1;
        let sub := Tcl_GetString o1 in
        if strcmp sub "create_recognizer" =? 0 then
          bad ← (if negb (objc =? 4) then mret true
                 else o2 ← arg objv 2;
                      mret (negb (strcmp (Tcl_GetString o2) "-rate" =? 0)));
          if bad : bool then
            Tcl_WrongNumArgs 2 objv "-rate sample_rate";; mret TCL_ERROR
          else
            o3 ← arg objv 3;
            parsed ← GetIntFromObj o3;
            match parsed with
            | None => mret TCL_ERROR
            | Some sample_rate =>
                api ← load_model ctx engine_funcs;
                match api with
                | Some t =>
                    match create_recognizer t with
                    | Some f =>
                        emit (Call_create_recognizer ctx sample_rate);;
                        run_engine (f ctx sample_rate)
                    | None => create_recognizer_unsupported ctx
                    end
                | None => create_recognizer_unsupported ctx
                end
            end
        else if strcmp sub "close" =? 0 then
          o0 ← arg objv 0;
          Tcl_DeleteCommand (Tcl_GetString o0);;
          Tcl_SetObjResult (Tcl_NewStringObj "ok");;
          mret TCL_OK
        else
          Tcl_AppendResult [("unknown subcommand " ++ dquote)%string; sub; dquote];;
          mret TCL_ERROR
  end.

(** ** Well-formed open recognizers *)

(** An open recognizer: live, closed flag clear, and a live parent. *)
Definition open_recognizer (w : World) (a : addr) (ctx : RecognizerCtx)
    (m : addr) (mc : ModelCtx) : Prop :=
  recognizers (mem w) !! a = Some ctx /\ closed ctx = 0 /\
  model_ctx ctx = Some m /\ models (mem w) !! m = Some mc.

(** ** A program logic for [M] *)

(** Partial correctness: from a world in [P], if [c] returns, the value
    and world are in [Q]. *)
Definition triple {A} (P : World -> Prop) (c : M A) (Q : A -> World -> Prop) : Prop :=
  forall w, P w -> match c w with
                   | Ok x w' => Q x w'
                   | Fault _ => True
                   end.

(** Every call logged from [w] to [w'] was made on a memory where [R] holds. *)
Definition observed_since (w w' : World) (R : Mem -> Prop) : Prop :=
  exists new, trace w' = trace w ++ new /\ Forall (fun em => R em.2) new.

(** [R] holds of the memory now and of every memory a call has observed
    since [w0]. *)
Definition kept (R : Mem -> Prop) (w0 w : World) : Prop :=
  R (mem w) /\ observed_since w0 w R.

(** ** The closed flag over time *)

(** One operation of the file run to completion: a command handler or a
    destructor, on any arguments. *)
Inductive step : World -> World -> Prop :=
| step_RecognizerObjCmd cd objv w rc w' :
    RecognizerObjCmd cd objv w = Ok rc w' -> step w w'
| step_ModelObjCmd cd objv w rc w' :
    ModelObjCmd cd objv w = Ok rc w' -> step w w'
| step_recognizer_delete cd w w' :
    recognizer_delete cd w = Ok tt w' -> step w w'
| step_model_delete cd w w' :
    model_delete cd w = Ok tt w' -> step w w'.

(** From memory [m] to memory [m']: every recognizer of [m'] was there in
    [m], and its closed flag has not gone from set to clear. *)
Definition closed_monotone (m m' : Mem) : Prop :=
  forall a c', recognizers m' !! a = Some c' ->
    exists c, recognizers m !! a = Some c /\ (closed c <> 0 -> closed c' <> 0).

(** The recognizer at [a] is there and reads closed = 1. *)
Definition closed_at (a : addr) (m : Mem) : Prop :=
  exists c, recognizers m !! a = Some c /\ closed c = 1.

(** A relational reading of [M]: whenever [c] returns, the world it
    started from and the world it ends in are related by [Rel]. *)
Definition relates {A} (Rel : World -> World -> Prop) (c : M A) : Prop :=
  forall w, match c w with
            | Ok _ w' => Rel w w'
            | Fault _ => True
            end.

(** No call into the engine, engine state as it was. *)
Definition quiet (w w' : World) : Prop :=
  engine_calls w' = engine_calls w /\ engine w' = engine w.

(** No call logged (the engine state may have moved on). *)
Definition hushed (w w' : World) : Prop :=
  engine_calls w' = engine_calls w.

(** Exactly one call into the engine. *)
Definition called_once (w w' : World) : Prop :=
  exists e, engine_calls w' = engine_calls w ++ [e].

(** Heap and command table as they were. *)
Definition same_memory (w w' : World) : Prop :=
  mem w' = mem w /\ commands w' = commands w.

(** Contexts and commands may have gone, none has appeared or changed. *)
Definition only_removes (w w' : World) : Prop :=
  recognizers (mem w') ⊆ recognizers (mem w)
  /\ models (mem w') ⊆ models (mem w)
  /\ commands w' ⊆ commands w.

(** From [w] to [w'] the engine was called at most once, and if it was not
    called its state is what it was. *)
Definition at_most_one_engine_call (w w' : World) : Prop :=
  exists calls,
    engine_calls w' = engine_calls w ++ calls
    /\ (length calls <= 1)%nat
    /\ (calls = [] -> engine w' = engine w).

End STT.

Global Arguments EngineAPI : clear implicits.
Global Arguments ModelCtx : clear implicits.
Global Arguments Mem : clear implicits.
Global Arguments World : clear implicits.
Global Arguments Outcome : clear implicits.
Global Arguments M : clear implicits.

(** ** The command surface *)

(** The subcommand strings each handler compares against. *)
Definition recognizer_vocabulary : list string :=
  ["accept-waveform"; "text"; "final-result"; "reset"; "close"].

Definition model_vocabulary : list string :=
  ["create_recognizer"; "close"].

(** [needle] occurs verbatim in [hay]. *)
Definition contains (needle hay : string) : Prop :=
  exists before after, hay = (before ++ needle ++ after)%string.

(** The outcome of a call rejected for its number of arguments: the host
    is asked for its usage message and the handler returns TCL_ERROR. *)
Definition wrong_arity {E} (w : World E) (objv : list Tcl_Obj) (out : Outcome E Z) : Prop :=
  exists n usage, out = Ok TCL_ERROR (log (Host_WrongNumArgs n objv usage) w).

(** ** Runs seen through the calls they make *)

(** [R] links each memory of the list to the next one, starting from [m]. *)
Fixpoint successive {E} (R : Mem E -> Mem E -> Prop) (m : Mem E) (ms : list (Mem E)) : Prop :=
  match ms with
  | [] => True
  | m' :: rest => R m m' /\ successive R m' rest
  end.

(** From [w] to [w']: take the memory at the start, the memory each call
    logged on the way has observed, in order, and the memory at the end.
    From each of them to the next no recognizer has appeared and no
    closed flag has gone from set to clear. *)
Definition monotone_run {E} (w w' : World E) : Prop :=
  exists new,
    trace w' = trace w ++ new
    /\ successive closed_monotone (mem w) (new.*2 ++ [mem w']).

(** Memories [m] and [m'] hold the same model contexts outside [pm] and
    the same recognizer contexts outside [pr]. *)
Definition agree {E} (pm pr : addr -> Prop) (m m' : Mem E) : Prop :=
  (forall b, ~ pm b -> models m' !! b = models m !! b)
  /\ (forall b, ~ pr b -> recognizers m' !! b = recognizers m !! b).

(** From [w] to [w'], contexts outside [pm] and [pr] were left alone, at
    the end and in every memory a call has observed. *)
Definition touches_only {E} (pm pr : addr -> Prop) (w w' : World E) : Prop :=
  agree pm pr (mem w) (mem w')
  /\ exists new, trace w' = trace w ++ new
                 /\ Forall (fun em => agree pm pr (mem w) em.2) new.

(** A memory [m] observed on the way from [w] to [w']: each context in it
    is what it was in [w], or is gone in [w']. *)
Definition settled {E} (w w' : World E) (m : Mem E) : Prop :=
  (forall a c, recognizers m !! a = Some c ->
               recognizers (mem w) !! a = Some c \/ recognizers (mem w') !! a = None)
  /\ (forall a c, models m !! a = Some c ->
                  models (mem w) !! a = Some c \/ models (mem w') !! a = None).

(** From [w] to [w'] contexts and commands have only been removed, and
    every memory a call has observed is settled. *)
Definition tidy {E} (w w' : World E) : Prop :=
  only_removes w w'
  /\ exists new, trace w' = trace w ++ new
                 /\ Forall (fun em => settled w w' em.2) new.

(** ** A small concrete world

    One model [m1] of engine type vosk at address 1, one open recognizer
    [r1] at address 2 created from it, and a recognizer [r2] at address 3
    whose closed flag is already set.  The engine state counts the calls
    the engine has received. *)
Module Sample.

Definition str (s : string) : Tcl_Obj := mkObj s (None, 0) None.
Definition int (s : string) (v : Z) : Tcl_Obj := mkObj s (None, 0) (Some v).
Definition blob (data : list byte) : Tcl_Obj :=
  mkObj EmptyString (Some data, Z.of_nat (length data)) None.

Definition vosk : EngineAPI nat :=
  mkAPI (Some (fun _ n => S n))
        (Some (fun _ n => S n))
        (Some (fun _ _ _ n => (0, S n)))
        (Some (fun _ n => (None, S n)))
        (Some (fun _ n => (Some "hello world", S n)))
        (Some (fun _ n => S n))
        (Some (fun _ _ n => (TCL_OK, S n))).

(** The same engine without a [create_recognizer] entry. *)
Definition vosk_no_create : EngineAPI nat :=
  mkAPI (model_free vosk) (recognizer_free vosk) (accept_waveform vosk)
        (get_text vosk) (get_final vosk) (reset vosk) None.

Definition m1 : ModelCtx nat :=
  mkModelCtx (Some 7%positive) (Some "/models/vosk") (Some "vosk")
             (Some (str "m1")) (Some vosk).

Definition r1 : RecognizerCtx :=
  mkRecognizerCtx (Some 9%positive) None (Some 1%positive) (Some (str "r1")) 0.

Definition r2 : RecognizerCtx :=
  mkRecognizerCtx None None (Some 1%positive) None 1.

Definition heap : Mem nat :=
  mkMem {[ 1%positive := m1 ]} {[ 2%positive := r1; 3%positive := r2 ]}.

Definition w0 : World nat :=
  mkWorld heap
          {[ "m1" := ModelCommand 1%positive; "r1" := RecognizerCommand 2%positive ]}
          0%nat [].

(** [w0] with the model's table replaced. *)
Definition with_table (t : option (EngineAPI nat)) : World nat :=
  mkWorld (mkMem {[ 1%positive :=
                      mkModelCtx (model m1) (model_path m1) (engine_type m1)
                                 (cmdname m1) t ]}
                 (recognizers heap))
          (commands w0) 0%nat [].

(** [w0] with the parent pointer of [r1] cleared. *)
Definition orphan : World nat :=
  mkWorld (mkMem (models heap)
                 {[ 2%positive :=
                      mkRecognizerCtx (recognizer r1) None None (rec_cmdname r1) 0 ]})
          (commands w0) 0%nat [].

Definition rate_16000 : list Tcl_Obj :=
  [str "m1"; str "create_recognizer"; str "-rate"; int "16000" 16000].

Definition two_bytes : list byte := [x00; x01].

(** The world after the command [r1 close] has run in [w0]. *)
Definition w1 : World nat :=
  match RecognizerObjCmd (Some 2%positive) [str "r1"; str "close"] w0 with
  | Ok _ w => w
  | Fault _ => w0
  end.

(** The same engine without a [get_text] entry. *)
Definition vosk_no_text : EngineAPI nat :=
  mkAPI (model_free vosk) (recognizer_free vosk) (accept_waveform vosk)
        None (get_final vosk) (reset vosk) (create_recognizer vosk).

(** The world after the destructor of [r1], and after that of [m1], has
    run in [w0]. *)
Definition w_r1_deleted : World nat :=
  match recognizer_delete (Some 2%positive) w0 with
  | Ok _ w => w
  | Fault _ => w0
  end.

Definition w_m1_deleted : World nat :=
  match model_delete (Some 1%positive) w0 with
  | Ok _ w => w
  | Fault _ => w0
  end.

(** The world after the destructor of [m1] has run in [orphan], where
    the only recognizer is open. *)
Definition orphan_m1_deleted : World nat :=
  match model_delete (Some 1%positive) orphan with
  | Ok _ w => w
  | Fault _ => orphan
  end.

End Sample.

(** * Properties *)

Section Properties.

Context {EngineState : Type}.
Implicit Types (w : World EngineState) (objv : list Tcl_Obj) (a m : addr).

(** ** The monad, step by step *)

Lemma bind_Ok {A B} (c : M EngineState A) (k : A -> M EngineState B) w x w' :
  c w = Ok x w' -> (c ≫= k) w = k x w'.
Proof. intros H. unfold mbind, M_bind. now rewrite H. Qed.

Lemma load_rec_live {A} a (field : RecognizerCtx -> A) w c :
  recognizers (mem w) !! a = Some c -> load_rec a field w = Ok (field c) w.
Proof. intros H. unfold load_rec. now rewrite H. Qed.

Lemma compare_refl (t : string) : String.compare t t = Eq.
Proof.
  pose proof (String.compare_antisym t t) as H.
  destruct (String.compare t t); [reflexivity | discriminate H | discriminate H].
Qed.

Lemma strcmp_0 (s t : string) : (strcmp s t =? 0) = bool_decide (s = t).
Proof.
  unfold strcmp. destruct (String.compare s t) eqn:E.
  - apply String.compare_eq_iff in E. subst. now rewrite bool_decide_eq_true_2.
  - rewrite bool_decide_eq_false_2; [reflexivity|].
    intros ->. rewrite compare_refl in E. discriminate.
  - rewrite bool_decide_eq_false_2; [reflexivity|].
    intros ->. rewrite compare_refl in E. discriminate.
Qed.

Lemma events_log e w : events (log e w) = events w ++ [e].
Proof. unfold events, log. simpl. now rewrite fmap_app. Qed.

Lemma engine_calls_log e w :
  engine_calls (log e w) =
  engine_calls w ++ (if is_engine_call e then [e] else []).
Proof.
  unfold engine_calls. rewrite events_log, List.filter_app. simpl.
  now destruct (is_engine_call e).
Qed.

Lemma engine_calls_with_engine e w : engine_calls (with_engine e w) = engine_calls w.
Proof. reflexivity. Qed.

(** ** The closed guard *)

(** C1: on a null context pointer, or on a context whose closed flag is
    set, the recognizer handler appends the message recognizer closed,
    returns TCL_ERROR and makes no call into the engine, whatever the
    argument vector is. *)
Theorem RecognizerObjCmd_closed (cd : ClientData) objv w :
  (cd = None \/
   exists a ctx, cd = Some a /\ recognizers (mem w) !! a = Some ctx /\ closed ctx <> 0) ->
  RecognizerObjCmd cd objv w
    = Ok TCL_ERROR (log (Host_AppendResult ["recognizer closed"]) w)
  /\ message_of (Host_AppendResult ["recognizer closed"]) = Some "recognizer closed"
  /\ engine_calls (log (Host_AppendResult ["recognizer closed"]) w) = engine_calls w
  /\ engine (log (Host_AppendResult ["recognizer closed"]) w) = engine w.
Proof.
  intros H. split; [|split; [reflexivity|split; [|reflexivity]]].
  - destruct H as [-> | (a & ctx & -> & Hlive & Hclosed)]; [reflexivity|].
    unfold RecognizerObjCmd.
    rewrite (bind_Ok _ _ _ _ _ (load_rec_live a closed w ctx Hlive)).
    apply Z.eqb_neq in Hclosed. now rewrite Hclosed.
  - rewrite engine_calls_log. simpl. apply app_nil_r.
Qed.

Ltac unfold_prims :=
  unfold RecognizerObjCmd, RecognizerObjCmd_open, ModelObjCmd,
    create_recognizer_unsupported, recognizer_closed,
    call_accept_waveform, call_get_text, call_get_final, call_reset,
    GetIntFromObj, Tcl_AppendResult, Tcl_SetObjResult, Tcl_WrongNumArgs,
    table, fn_ptr, deref, arg, fault, emit, run_engine, run_engine_,
    load_rec, load_model, mbind, M_bind, mret, M_ret.

(** Conditions on closed data are computed; the others wait for a
    hypothesis. *)
Ltac nat_literal n :=
  lazymatch n with
  | O => idtac
  | S ?k => nat_literal k
  end.

Ltac eval_conds :=
  repeat match goal with
  | |- context [Z.of_nat ?n] =>
      nat_literal n;
      let v := eval cbv in (Z.of_nat n) in
      progress change (Z.of_nat n) with v
  | |- context [strcmp ?s ?t =? 0] =>
      let v := eval vm_compute in (strcmp s t =? 0) in
      lazymatch v with
      | true => idtac | false => idtac
      end;
      change (strcmp s t =? 0) with v
  end.

Ltac use_hyps :=
  repeat match goal with
  | H : ?l = _ |- context [?l] => rewrite H
  end.

Ltac run := unfold_prims; repeat (first [progress cbn | progress eval_conds | progress use_hyps]).

Ltac run_open H :=
  let Hl := fresh "Hlive" in
  let Hc := fresh "Hclosed" in
  let Hp := fresh "Hparent" in
  let Hm := fresh "Hmodel" in
  destruct H as (Hl & Hc & Hp & Hm); run.

(** ** accept-waveform *)

(** C3: on an open recognizer, accept-waveform with a payload whose data
    pointer is NULL or whose length is zero or negative appends the message
    invalid audio data, returns TCL_ERROR and never reaches the engine. *)
Theorem accept_waveform_invalid w a ctx m mc o0 o1 o2 :
  open_recognizer w a ctx m mc ->
  Tcl_GetString o1 = "accept-waveform" ->
  (Tcl_GetByteArrayFromObj o2).1 = None \/ (Tcl_GetByteArrayFromObj o2).2 <= 0 ->
  RecognizerObjCmd (Some a) [o0; o1; o2] w
    = Ok TCL_ERROR (log (Host_AppendResult ["invalid audio data"]) w)
  /\ message_of (Host_AppendResult ["invalid audio data"]) = Some "invalid audio data"
  /\ engine_calls (log (Host_AppendResult ["invalid audio data"]) w) = engine_calls w
  /\ engine (log (Host_AppendResult ["invalid audio data"]) w) = engine w.
Proof.
  intros Hopen Hsub Hbad. split; [|split; [reflexivity|split; [|reflexivity]]].
  - destruct (Tcl_GetByteArrayFromObj o2) as [[data|] len] eqn:Hdata; cbn in Hbad.
    + destruct Hbad as [Hbad|Hbad]; [discriminate|].
      apply Z.leb_le in Hbad. now run_open Hopen.
    + now run_open Hopen.
  - rewrite engine_calls_log. apply app_nil_r.
Qed.

(** C9: on an open recognizer, accept-waveform with one payload of
    positive length calls the engine's accept_waveform exactly once, with
    the recognizer handle, the payload bytes and the payload length, and
    the result object is the boolean made of the engine's int (non-zero is
    true); the handler returns TCL_OK. *)
Theorem accept_waveform_forwards w a ctx m mc api f o0 o1 o2 data len :
  open_recognizer w a ctx m mc ->
  engine_funcs mc = Some api ->
  accept_waveform api = Some f ->
  Tcl_GetString o1 = "accept-waveform" ->
  Tcl_GetByteArrayFromObj o2 = (Some data, len) ->
  0 < len ->
  let call := Call_accept_waveform (recognizer ctx) data len in
  let reply := f (recognizer ctx) data len (engine w) in
  let w' := log (Host_SetObjResult (Tcl_NewBooleanObj reply.1))
                (with_engine reply.2 (log call w)) in
  RecognizerObjCmd (Some a) [o0; o1; o2] w = Ok TCL_OK w'
  /\ engine_calls w' = (engine_calls w ++ [call])
  /\ Tcl_NewBooleanObj reply.1 = BooleanObj (bool_decide (reply.1 <> 0)).
Proof.
  intros Hopen Hapi Hf Hsub Hdata Hlen call reply w'. split; [|split].
  - assert ((len <=? 0) = false) as Hpos by now apply Z.leb_gt.
    now run_open Hopen.
  - subst w' reply call.
    now rewrite engine_calls_log, engine_calls_with_engine, engine_calls_log, app_nil_r.
  - unfold Tcl_NewBooleanObj. f_equal. destruct (Z.eqb_spec reply.1 0) as [->|Hne].
    + now rewrite bool_decide_eq_false_2 by (intros H; now apply H).
    + now rewrite bool_decide_eq_true_2.
Qed.

(** ** text and final-result *)

Lemma objc_ge_2 objv (o1 : Tcl_Obj) :
  objv !! 1%nat = Some o1 -> (Z.of_nat (length objv) <? 2) = false.
Proof.
  intros H. apply lookup_lt_Some in H. apply Z.ltb_ge. lia.
Qed.

(** C4: on an open recognizer, text (and final-result) calls the engine's
    get_text (get_final) once and sets a string object as the result: the
    engine's string when it returns one, the empty string when it returns
    NULL; the handler returns TCL_OK. *)
Theorem text_result_never_null w a ctx m mc api objv o1 (final : bool) f :
  open_recognizer w a ctx m mc ->
  engine_funcs mc = Some api ->
  (if final then get_final api else get_text api) = Some f ->
  objv !! 1%nat = Some o1 ->
  Tcl_GetString o1 = (if final then "final-result" else "text") ->
  let call := if final then Call_get_final a else Call_get_text a in
  let reply := f a (engine w) in
  let w' := log (Host_SetObjResult (StringObj (or_empty reply.1)))
                (with_engine reply.2 (log call w)) in
  RecognizerObjCmd (Some a) objv w = Ok TCL_OK w'
  /\ engine_calls w' = (engine_calls w ++ [call])
  /\ (forall s, reply.1 = Some s -> or_empty reply.1 = s)
  /\ (reply.1 = None -> or_empty reply.1 = EmptyString).
Proof.
  intros Hopen Hapi Hf Ho1 Hsub call reply w'. subst w' reply call.
  pose proof (objc_ge_2 _ _ Ho1) as Hobjc.
  split; [|split; [|split]].
  - destruct final; now run_open Hopen.
  - rewrite engine_calls_log, engine_calls_with_engine, engine_calls_log, app_nil_r.
    now destruct final.
  - now intros s ->.
  - now intros ->.
Qed.

(** ** The parent model context *)

(** C10: on an open recognizer with at least a subcommand argument, the
    handler reads the engine table through the parent model context before
    it looks at the subcommand: with a NULL parent it faults on that read
    whatever the subcommand is (close and unknown ones included), and with
    a parent that has been freed it faults as well. *)
Theorem parent_read_before_dispatch w a ctx objv o1 :
  recognizers (mem w) !! a = Some ctx ->
  closed ctx = 0 ->
  objv !! 1%nat = Some o1 ->
  (model_ctx ctx = None -> RecognizerObjCmd (Some a) objv w = Fault NullPointer)
  /\ (forall m, model_ctx ctx = Some m -> models (mem w) !! m = None ->
       RecognizerObjCmd (Some a) objv w = Fault DanglingPointer).
Proof.
  intros Hlive Hclosed Ho1. pose proof (objc_ge_2 _ _ Ho1) as Hobjc.
  split; [intros Hparent | intros m Hparent Hfreed]; now run.
Qed.

(** ** Unknown subcommands *)

Lemma strcmp_other (s t : string) : s <> t -> (strcmp s t =? 0) = false.
Proof. intros H. rewrite strcmp_0. now apply bool_decide_eq_false_2. Qed.

Lemma contains_quoted (before sub after : string) :
  contains sub (String.concat EmptyString [before; sub; after]).
Proof. exists before, after. reflexivity. Qed.

(** C6: a subcommand string outside the vocabulary of a handler makes it
    append the message unknown subcommand followed by the string itself
    between double quotes, return TCL_ERROR and call nothing in the
    engine: the model handler on any non-NULL context, the recognizer
    handler on an open recognizer. *)
Theorem unknown_subcommand w objv o1 :
  objv !! 1%nat = Some o1 ->
  let sub := Tcl_GetString o1 in
  let unknown := Host_AppendResult [("unknown subcommand " ++ dquote)%string; sub; dquote] in
  (sub ∉ model_vocabulary -> forall a,
     ModelObjCmd (Some a) objv w = Ok TCL_ERROR (log unknown w))
  /\ (sub ∉ recognizer_vocabulary -> forall a ctx m mc,
     open_recognizer w a ctx m mc ->
     RecognizerObjCmd (Some a) objv w = Ok TCL_ERROR (log unknown w))
  /\ (exists text, message_of unknown = Some text /\ contains sub text)
  /\ engine_calls (log unknown w) = engine_calls w
  /\ engine (log unknown w) = engine w.
Proof.
  intros Ho1 sub unknown. subst unknown.
  pose proof (objc_ge_2 _ _ Ho1) as Hobjc.
  split; [|split; [|split; [|split]]].
  - intros Hvoc a. unfold model_vocabulary in Hvoc.
    rewrite !not_elem_of_cons in Hvoc. destruct Hvoc as (H1 & H2 & _).
    apply strcmp_other in H1, H2. subst sub. now run.
  - intros Hvoc a ctx m mc Hopen. unfold recognizer_vocabulary in Hvoc.
    rewrite !not_elem_of_cons in Hvoc. destruct Hvoc as (H1 & H2 & H3 & H4 & H5 & _).
    apply strcmp_other in H1, H2, H3, H4, H5. subst sub. now run_open Hopen.
  - eexists. split; [reflexivity|]. apply contains_quoted.
  - now rewrite engine_calls_log, app_nil_r.
  - reflexivity.
Qed.

(** ** create_recognizer *)

Lemma append_empty_r (s : string) : (s ++ EmptyString)%string = s.
Proof.
  induction s as [|c s IH]; [reflexivity|].
  change (String c (s ++ EmptyString)%string = String c s). now f_equal.
Qed.

Lemma contains_last (before tag : string) :
  contains tag (String.concat EmptyString [before; tag]).
Proof. exists before, EmptyString. rewrite append_empty_r. reflexivity. Qed.

(** C2: create_recognizer -rate N on a live model context calls the
    create_recognizer entry of the engine table once, with that context
    and N, and returns what it returns; when the entry or the table is
    NULL it appends a message that ends with the engine type tag (the word
    unknown when the tag is NULL), returns TCL_ERROR and calls nothing in
    the engine. *)
Theorem create_recognizer_dispatch w a ctx o0 o1 o2 o3 (N : Z) :
  models (mem w) !! a = Some ctx ->
  Tcl_GetString o1 = "create_recognizer" ->
  Tcl_GetString o2 = "-rate" ->
  Tcl_GetIntFromObj o3 = Some N ->
  let objv := [o0; o1; o2; o3] in
  let w1 := log (Host_GetIntFromObj o3) w in
  match engine_funcs ctx ≫= create_recognizer with
  | Some f =>
      let call := Call_create_recognizer a N in
      let reply := f a N (engine w) in
      ModelObjCmd (Some a) objv w = Ok reply.1 (with_engine reply.2 (log call w1))
      /\ engine_calls (with_engine reply.2 (log call w1)) = (engine_calls w ++ [call])
  | None =>
      let tag := default "unknown" (engine_type ctx) in
      let unsupported :=
        Host_AppendResult ["create_recognizer not implemented for engine: "; tag] in
      ModelObjCmd (Some a) objv w = Ok TCL_ERROR (log unsupported w1)
      /\ engine_calls (log unsupported w1) = engine_calls w
      /\ engine (log unsupported w1) = engine w
      /\ (exists text, message_of unsupported = Some text /\ contains tag text)
      /\ (forall t, engine_type ctx = Some t -> tag = t)
  end.
Proof.
  intros Hlive Hsub Hrate Hint objv w1. subst objv w1.
  destruct (engine_funcs ctx) as [api|] eqn:Hapi; simpl (_ ≫= _); cbv zeta.
  - destruct (create_recognizer api) as [f|] eqn:Hf.
    + split; [now run|].
      now rewrite engine_calls_with_engine, !engine_calls_log, !app_nil_r.
    + split; [now run|]. split; [|split; [reflexivity|split]].
      * now rewrite !engine_calls_log, !app_nil_r.
      * eexists. split; [reflexivity|]. apply contains_last.
      * now intros t ->.
  - split; [now run|]. split; [|split; [reflexivity|split]].
    + now rewrite !engine_calls_log, !app_nil_r.
    + eexists. split; [reflexivity|]. apply contains_last.
    + now intros t ->.
Qed.

(** ** Argument counts *)

(** C5, as the code has it: a handler called without a subcommand,
    accept-waveform called with an argument count other than three, and
    create_recognizer called with a count other than four or with a third
    word other than -rate, ask the host for its usage message, return
    TCL_ERROR and call nothing in the engine.  The subcommands that take
    no argument (text, final-result, reset and close on a recognizer,
    close on a model) do not look at the count: with extra arguments they
    do what they do without them. *)
Theorem arity_checked_where_arguments_are_read w a objv :
  ((length objv < 2)%nat ->
     ModelObjCmd (Some a) objv w
       = Ok TCL_ERROR (log (Host_WrongNumArgs 1 objv "subcommand ?args?") w)
     /\ (forall ctx, recognizers (mem w) !! a = Some ctx -> closed ctx = 0 ->
         RecognizerObjCmd (Some a) objv w
           = Ok TCL_ERROR (log (Host_WrongNumArgs 1 objv "subcommand ?args?") w)))
  /\ (forall o1 ctx m mc,
       objv !! 1%nat = Some o1 -> Tcl_GetString o1 = "accept-waveform" ->
       length objv <> 3%nat -> open_recognizer w a ctx m mc ->
       RecognizerObjCmd (Some a) objv w
         = Ok TCL_ERROR (log (Host_WrongNumArgs 2 objv "audio_data") w))
  /\ (forall o1,
       objv !! 1%nat = Some o1 -> Tcl_GetString o1 = "create_recognizer" ->
       (length objv <> 4%nat \/
        exists o2, objv !! 2%nat = Some o2 /\ Tcl_GetString o2 <> "-rate") ->
       ModelObjCmd (Some a) objv w
         = Ok TCL_ERROR (log (Host_WrongNumArgs 2 objv "-rate sample_rate") w))
  /\ (forall n usage,
       engine_calls (log (Host_WrongNumArgs n objv usage) w) = engine_calls w)
  /\ (forall o0 o1 extra,
       objv = o0 :: o1 :: extra ->
       Tcl_GetString o1 ∈ ["text"; "final-result"; "reset"; "close"] ->
       RecognizerObjCmd (Some a) objv w = RecognizerObjCmd (Some a) [o0; o1] w)
  /\ (forall o0 o1 extra,
       objv = o0 :: o1 :: extra -> Tcl_GetString o1 = "close" ->
       ModelObjCmd (Some a) objv w = ModelObjCmd (Some a) [o0; o1] w).
Proof.
  split; [|split; [|split; [|split; [|split]]]].
  - intros Hshort.
    assert ((Z.of_nat (length objv) <? 2) = true) as Hobjc by (apply Z.ltb_lt; lia).
    split; [now run|]. intros ctx Hlive Hclosed. now run.
  - intros o1 ctx m mc Ho1 Hsub Hlen Hopen.
    pose proof (objc_ge_2 _ _ Ho1) as Hobjc.
    assert ((Z.of_nat (length objv) =? 3) = false) as Hthree by (apply Z.eqb_neq; lia).
    now run_open Hopen.
  - intros o1 Ho1 Hsub Hbad.
    pose proof (objc_ge_2 _ _ Ho1) as Hobjc.
    destruct (Z.eqb_spec (Z.of_nat (length objv)) 4) as [Hfour|Hfour].
    + destruct Hbad as [Hlen|(o2 & Ho2 & Hrate)]; [lia|].
      apply strcmp_other in Hrate. apply Z.eqb_eq in Hfour. now run.
    + apply Z.eqb_neq in Hfour. now run.
  - intros n usage. now rewrite engine_calls_log, app_nil_r.
  - intros o0 o1 extra -> Hsub.
    assert ((Z.of_nat (S (S (length extra))) <? 2) = false) as Hobjc
      by (apply Z.ltb_ge; lia).
    rewrite !elem_of_cons in Hsub.
    destruct Hsub as [Hsub|[Hsub|[Hsub|[Hsub|Hsub]]]];
      [| | | |now apply elem_of_nil in Hsub]; now run.
  - intros o0 o1 extra -> Hsub.
    assert ((Z.of_nat (S (S (length extra))) <? 2) = false) as Hobjc
      by (apply Z.ltb_ge; lia).
    now run.
Qed.

(** ** The destructors *)

Ltac run_delete :=
  unfold model_delete, recognizer_delete, ckfree_model, ckfree_rec, ckfree_string,
    Tcl_DecrRefCount, store_model, store_rec, release_model, release_rec;
  unfold_prims;
  repeat (first [progress cbn | progress use_hyps | rewrite lookup_insert_eq]).

Ltac events_eq :=
  unfold events; cbn; rewrite ?fmap_app; cbn; rewrite <- ?app_assoc; reflexivity.

Ltac finish_delete :=
  eexists; split; [run_delete; reflexivity|];
  match goal with
  | |- events ?W = ?L /\ _ =>
      let Hev := fresh "Hev" in
      assert (events W = L) as Hev by events_eq;
      split; [exact Hev|];
      split; [try discriminate; intros _; unfold engine_calls;
              rewrite Hev, List.filter_app; apply app_nil_r
             |cbn; apply lookup_delete_eq]
  end.

(** C7: both destructors return at once on a NULL context.  On a live
    context each release is made exactly when its field is non-NULL: the
    engine free when the handle and the engine table are both there (for a
    recognizer the table is the one reached through the parent), the two
    strings, the command name; then the structure itself is freed.  A
    context whose engine handle is NULL gets no call into the engine. *)
Theorem destructors_guard_every_release w a :
  model_delete None w = Ok tt w
  /\ recognizer_delete None w = Ok tt w
  /\ (forall ctx,
       models (mem w) !! a = Some ctx ->
       (forall api, model ctx <> None -> engine_funcs ctx = Some api ->
                    is_Some (model_free api)) ->
       exists w',
         model_delete (Some a) w = Ok tt w'
         /\ events w' = events w ++
              match model ctx, engine_funcs ctx with
              | Some h, Some _ => [Call_model_free h]
              | _, _ => []
              end ++
              match model_path ctx with
              | Some s => [Host_ckfree (StringBlock s)]
              | None => []
              end ++
              match engine_type ctx with
              | Some s => [Host_ckfree (StringBlock s)]
              | None => []
              end ++
              match cmdname ctx with
              | Some o => [Host_DecrRefCount o]
              | None => []
              end ++
              [Host_ckfree (ModelCtxBlock a)]
         /\ (model ctx = None -> engine_calls w' = engine_calls w)
         /\ models (mem w') !! a = None)
  /\ (forall ctx,
       recognizers (mem w) !! a = Some ctx ->
       (forall m, recognizer ctx <> None -> model_ctx ctx = Some m ->
                  is_Some (models (mem w) !! m)) ->
       (forall api, recognizer ctx <> None -> parent_table w ctx = Some api ->
                    is_Some (recognizer_free api)) ->
       exists w',
         recognizer_delete (Some a) w = Ok tt w'
         /\ events w' = events w ++
              match recognizer ctx, parent_table w ctx with
              | Some h, Some _ => [Call_recognizer_free h]
              | _, _ => []
              end ++
              match rec_cmdname ctx with
              | Some o => [Host_DecrRefCount o]
              | None => []
              end ++
              [Host_ckfree (RecognizerCtxBlock a)]
         /\ (recognizer ctx = None -> engine_calls w' = engine_calls w)
         /\ recognizers (mem w') !! a = None).
Proof.
  split; [reflexivity|]. split; [reflexivity|]. split.
  - intros [mo pa ty cn ef] Hlive Hfree. cbn in Hfree.
    destruct mo as [h|], ef as [api|];
      try (destruct (Hfree api ltac:(discriminate) eq_refl) as [f Hf]);
      destruct pa as [p|], ty as [t|], cn as [c|];
      finish_delete.
  - intros [re rm pm cn cl] Hlive Hparent Hfree. unfold parent_table in *. cbn in *.
    destruct re as [h|]; [destruct pm as [m|] |].
    + destruct (Hparent m ltac:(discriminate) eq_refl) as [mc Hmc]. cbn in *.
      rewrite Hmc in *. cbn in *.
      destruct (engine_funcs mc) as [api|] eqn:Hapi;
        try (destruct (Hfree api ltac:(discriminate) eq_refl) as [f Hf]);
        destruct cn as [c|]; finish_delete.
    + destruct cn as [c|]; finish_delete.
    + destruct cn as [c|]; finish_delete.
Qed.

(** ** Monotonicity of the closed flag *)

Lemma triple_ret {A} (P : World EngineState -> Prop) (x : A) (Q : A -> World EngineState -> Prop) :
  (forall w, P w -> Q x w) -> triple P (mret x) Q.
Proof. intros H w Hw. cbn. now apply H. Qed.

Lemma triple_fault {A} (P : World EngineState -> Prop) k (Q : A -> World EngineState -> Prop) :
  triple P (fault k) Q.
Proof. now intros w Hw. Qed.

Lemma triple_bind {A B} (P : World EngineState -> Prop) (c : M EngineState A)
    (k : A -> M EngineState B) Q1 Q :
  triple P c Q1 -> (forall x, triple (Q1 x) (k x) Q) -> triple P (c ≫= k) Q.
Proof.
  intros Hc Hk w Hw. specialize (Hc w Hw). unfold mbind, M_bind.
  destruct (c w) as [x w1|f]; [|exact I]. now apply Hk.
Qed.

Section Invariant.

Variable R : Mem EngineState -> Prop.
Variable w0 : World EngineState.

Hypothesis R_put_model : forall mm a c,
  R mm -> R (mkMem (<[a := c]> (models mm)) (recognizers mm)).
Hypothesis R_drop_model : forall mm a,
  R mm -> R (mkMem (delete a (models mm)) (recognizers mm)).
Hypothesis R_put_rec : forall mm a c c',
  R mm -> recognizers mm !! a = Some c ->
  closed c' = closed c \/ closed c' = 1 ->
  R (mkMem (models mm) (<[a := c']> (recognizers mm))).
Hypothesis R_drop_rec : forall mm a,
  R mm -> R (mkMem (models mm) (delete a (recognizers mm))).

Local Abbreviation keeps c := (triple (kept R w0) c (fun _ => kept R w0)).

Lemma keeps_bind {A B} (c : M EngineState A) (k : A -> M EngineState B) Q :
  keeps c -> (forall x, triple (kept R w0) (k x) Q) -> triple (kept R w0) (c ≫= k) Q.
Proof. intros Hc Hk. eapply triple_bind; [exact Hc|exact Hk]. Qed.

Lemma keeps_ret {A} (x : A) : keeps (mret x).
Proof. now apply triple_ret. Qed.

Lemma keeps_fault {A} k : keeps (@fault EngineState A k).
Proof. apply triple_fault. Qed.

Lemma keeps_emit e : keeps (emit e).
Proof.
  intros w (HR & new & Htr & Hobs). cbn. split; [exact HR|].
  exists (new ++ [(e, mem w)]). split.
  - unfold log. cbn [trace]. rewrite Htr. symmetry. apply app_assoc.
  - apply Forall_app. split; [exact Hobs|]. now constructor.
Qed.

Lemma keeps_run_engine {A} (f : EngineState -> A * EngineState) : keeps (run_engine f).
Proof. now intros w Hw. Qed.

Lemma keeps_run_engine_ (f : EngineState -> EngineState) : keeps (run_engine_ f).
Proof. now intros w Hw. Qed.

Lemma keeps_deref p : keeps (deref p).
Proof. destruct p; [apply keeps_ret|apply keeps_fault]. Qed.

Lemma keeps_fn_ptr {F} (f : option F) : keeps (fn_ptr f).
Proof. destruct f; [apply keeps_ret|apply keeps_fault]. Qed.

Lemma keeps_table api : keeps (table api).
Proof. destruct api; [apply keeps_ret|apply keeps_fault]. Qed.

Lemma keeps_arg objv i : keeps (arg objv i).
Proof. unfold arg. destruct (objv !! i); [apply keeps_ret|apply keeps_fault]. Qed.

Lemma keeps_load_model {A} a (field : ModelCtx EngineState -> A) : keeps (load_model a field).
Proof. intros w Hw. unfold load_model. now destruct (models (mem w) !! a). Qed.

Lemma keeps_load_rec {A} a (field : RecognizerCtx -> A) : keeps (load_rec a field).
Proof. intros w Hw. unfold load_rec. now destruct (recognizers (mem w) !! a). Qed.

Lemma keeps_store_model a upd : keeps (store_model a upd).
Proof.
  intros w (HR & Hobs). unfold store_model.
  destruct (models (mem w) !! a); [|exact I]. split; [now apply R_put_model|exact Hobs].
Qed.

Lemma keeps_store_rec a upd :
  (forall c, closed (upd c) = closed c \/ closed (upd c) = 1) ->
  keeps (store_rec a upd).
Proof.
  intros Hupd w (HR & Hobs). unfold store_rec.
  destruct (recognizers (mem w) !! a) as [c|] eqn:Hc; [|exact I].
  split; [|exact Hobs]. now apply R_put_rec with c.
Qed.

Lemma keeps_release_model a : keeps (release_model a).
Proof. intros w (HR & Hobs). split; [now apply R_drop_model|exact Hobs]. Qed.

Lemma keeps_registered name : keeps (registered name).
Proof. now intros w Hw. Qed.

Lemma keeps_unregister name : keeps (unregister name).
Proof. now intros w Hw. Qed.

Lemma keeps_release_rec a : keeps (release_rec a).
Proof. intros w (HR & Hobs). split; [now apply R_drop_rec|exact Hobs]. Qed.

Ltac keeps_prim :=
  first
    [ apply keeps_ret | apply keeps_fault | apply keeps_emit
    | apply keeps_run_engine | apply keeps_run_engine_
    | apply keeps_deref | apply keeps_fn_ptr | apply keeps_table | apply keeps_arg
    | apply keeps_load_model | apply keeps_load_rec | apply keeps_store_model
    | apply keeps_store_rec; intros ?; cbn; tauto
    | apply keeps_release_model | apply keeps_registered | apply keeps_unregister
    | match goal with H : _ |- _ => solve [apply H] end ].

Ltac keeps_go :=
  repeat lazymatch goal with
  | |- triple _ (mbind _ _) _ => apply keeps_bind; [|intros ?]
  | |- triple _ (match ?x with _ => _ end) _ => destruct x
  | |- _ => keeps_prim
  end.

Lemma keeps_ckfree_string s : keeps (ckfree_string s).
Proof. apply keeps_emit. Qed.

Lemma keeps_Tcl_DecrRefCount o : keeps (Tcl_DecrRefCount o).
Proof. apply keeps_emit. Qed.

Lemma keeps_Tcl_AppendResult parts : keeps (Tcl_AppendResult parts).
Proof. apply keeps_emit. Qed.

Lemma keeps_Tcl_SetObjResult o : keeps (Tcl_SetObjResult o).
Proof. apply keeps_emit. Qed.

Lemma keeps_Tcl_WrongNumArgs n objv usage : keeps (Tcl_WrongNumArgs n objv usage).
Proof. apply keeps_emit. Qed.

Lemma keeps_GetIntFromObj o : keeps (GetIntFromObj o).
Proof. unfold GetIntFromObj. keeps_go. Qed.

Lemma keeps_ckfree_model a : keeps (ckfree_model a).
Proof. unfold ckfree_model. keeps_go. Qed.

Lemma keeps_model_delete cd : keeps (model_delete cd).
Proof.
  pose proof keeps_ckfree_string. pose proof keeps_Tcl_DecrRefCount.
  pose proof keeps_ckfree_model.
  unfold model_delete. keeps_go.
Qed.

(** The recognizer destructor, from its first store to its last free. *)
Lemma recognizer_delete_triple a (P : World EngineState -> Prop) Q :
  triple P (store_rec a (set_closed 1)) (fun _ => kept R w0) ->
  triple (kept R w0) (ckfree_rec a) Q ->
  triple P (recognizer_delete (Some a)) Q.
Proof.
  intros Hfirst Hlast. pose proof keeps_Tcl_DecrRefCount.
  unfold recognizer_delete. eapply triple_bind; [exact Hfirst|]. intros ?. cbv beta.
  keeps_go.
Qed.

Lemma keeps_ckfree_rec a : keeps (ckfree_rec a).
Proof. unfold ckfree_rec. keeps_go. apply keeps_release_rec. Qed.

Lemma keeps_recognizer_delete cd : keeps (recognizer_delete cd).
Proof.
  destruct cd as [a|]; [|apply keeps_ret].
  apply recognizer_delete_triple; [|apply keeps_ckfree_rec].
  apply keeps_store_rec. intros c. now right.
Qed.

Lemma keeps_Tcl_DeleteCommand name : keeps (Tcl_DeleteCommand name).
Proof.
  pose proof keeps_model_delete. pose proof keeps_recognizer_delete.
  unfold Tcl_DeleteCommand. keeps_go.
Qed.

Lemma keeps_RecognizerObjCmd cd objv : keeps (RecognizerObjCmd cd objv).
Proof.
  pose proof keeps_Tcl_AppendResult. pose proof keeps_Tcl_SetObjResult.
  pose proof keeps_Tcl_WrongNumArgs. pose proof keeps_Tcl_DeleteCommand.
  unfold RecognizerObjCmd, RecognizerObjCmd_open, recognizer_closed,
    call_accept_waveform, call_get_text, call_get_final, call_reset.
  keeps_go.
Qed.

Lemma keeps_ModelObjCmd cd objv : keeps (ModelObjCmd cd objv).
Proof.
  pose proof keeps_Tcl_AppendResult. pose proof keeps_Tcl_SetObjResult.
  pose proof keeps_Tcl_WrongNumArgs. pose proof keeps_Tcl_DeleteCommand.
  pose proof keeps_GetIntFromObj.
  unfold ModelObjCmd, create_recognizer_unsupported.
  keeps_go.
Qed.

End Invariant.

Lemma closed_monotone_refl (mm : Mem EngineState) : closed_monotone mm mm.
Proof. intros a c Hc. now exists c. Qed.

Lemma closed_monotone_trans (m1 m2 m3 : Mem EngineState) :
  closed_monotone m1 m2 -> closed_monotone m2 m3 -> closed_monotone m1 m3.
Proof.
  intros H12 H23 a c3 Hc3.
  destruct (H23 a c3 Hc3) as (c2 & Hc2 & Hk2).
  destruct (H12 a c2 Hc2) as (c1 & Hc1 & Hk1).
  exists c1. split; [exact Hc1|]. intros Hset. now apply Hk2, Hk1.
Qed.

Lemma closed_monotone_put_rec (m0 mm : Mem EngineState) a c c' :
  closed_monotone m0 mm -> recognizers mm !! a = Some c ->
  closed c' = closed c \/ closed c' = 1 ->
  closed_monotone m0 (mkMem (models mm) (<[a := c']> (recognizers mm))).
Proof.
  intros Hmono Hc Hupd b cb. cbn. destruct (decide (a = b)) as [<-|Hne].
  - rewrite lookup_insert_eq. intros [= <-].
    destruct (Hmono a c Hc) as (c0 & Hc0 & Hk). exists c0. split; [exact Hc0|].
    intros Hset. destruct Hupd as [-> | ->]; [now apply Hk|discriminate].
  - rewrite lookup_insert_ne by exact Hne. apply Hmono.
Qed.

Lemma closed_monotone_drop_rec (m0 mm : Mem EngineState) a :
  closed_monotone m0 mm ->
  closed_monotone m0 (mkMem (models mm) (delete a (recognizers mm))).
Proof.
  intros Hmono b cb. cbn. intros Hb. apply lookup_delete_Some in Hb as [_ Hb].
  now apply Hmono.
Qed.

Lemma closed_at_put_rec a (mm : Mem EngineState) b c c' :
  closed_at a mm -> recognizers mm !! b = Some c ->
  closed c' = closed c \/ closed c' = 1 ->
  closed_at a (mkMem (models mm) (<[b := c']> (recognizers mm))).
Proof.
  intros (ca & Hca & Hone) Hc Hupd. unfold closed_at. cbn.
  destruct (decide (b = a)) as [->|Hne].
  - rewrite lookup_insert_eq. exists c'. split; [reflexivity|].
    destruct Hupd as [-> | ->]; [congruence|reflexivity].
  - rewrite lookup_insert_ne by exact Hne. now exists ca.
Qed.

Lemma kept_start (R : Mem EngineState -> Prop) w : R (mem w) -> kept R w w.
Proof.
  intros HR. split; [exact HR|]. exists []. split; [now rewrite app_nil_r|constructor].
Qed.

Lemma step_kept w w' : step w w' -> kept (closed_monotone (mem w)) w w'.
Proof.
  intros Hstep.
  destruct Hstep as [cd objv w rc w' Hrun|cd objv w rc w' Hrun|cd w w' Hrun|cd w w' Hrun];
    pose proof (kept_start _ w (closed_monotone_refl (mem w))) as Hstart;
    assert (forall mm a (c : ModelCtx EngineState), closed_monotone (mem w) mm ->
              closed_monotone (mem w) (mkMem (<[a := c]> (models mm)) (recognizers mm)))
      as Hput by (intros mm a c H; exact H);
    assert (forall mm a, closed_monotone (mem w) mm ->
              closed_monotone (mem w) (mkMem (delete a (models mm)) (recognizers mm)))
      as Hdrop by (intros mm a H; exact H).
  - pose proof (keeps_RecognizerObjCmd _ w Hput Hdrop (closed_monotone_put_rec _)
                  (closed_monotone_drop_rec _) cd objv w Hstart) as H.
    now rewrite Hrun in H.
  - pose proof (keeps_ModelObjCmd _ w Hput Hdrop (closed_monotone_put_rec _)
                  (closed_monotone_drop_rec _) cd objv w Hstart) as H.
    now rewrite Hrun in H.
  - pose proof (keeps_recognizer_delete _ w (closed_monotone_put_rec _)
                  (closed_monotone_drop_rec _) cd w Hstart) as H.
    now rewrite Hrun in H.
  - pose proof (keeps_model_delete _ w Hput Hdrop cd w Hstart) as H.
    now rewrite Hrun in H.
Qed.

Lemma kept_trans w w1 w2 :
  kept (closed_monotone (mem w)) w w1 ->
  kept (closed_monotone (mem w1)) w1 w2 ->
  kept (closed_monotone (mem w)) w w2.
Proof.
  intros (H1 & new1 & Htr1 & Hobs1) (H2 & new2 & Htr2 & Hobs2). split.
  - now apply closed_monotone_trans with (mem w1).
  - exists (new1 ++ new2). split.
    + now rewrite Htr2, Htr1, app_assoc.
    + apply Forall_app. split; [exact Hobs1|].
      eapply Forall_impl; [exact Hobs2|]. intros em Hem.
      now apply closed_monotone_trans with (mem w1).
Qed.

Lemma steps_kept w w' : rtc step w w' -> kept (closed_monotone (mem w)) w w'.
Proof.
  induction 1 as [w|w w1 w2 Hstep _ IH].
  - apply kept_start, closed_monotone_refl.
  - apply kept_trans with w1; [now apply step_kept|exact IH].
Qed.

Lemma recognizer_delete_closed_first a w w' :
  recognizer_delete (Some a) w = Ok tt w' ->
  observed_since w w' (closed_at a)
  /\ Host_ckfree (RecognizerCtxBlock a) ∈ events w'.
Proof.
  intros Hrun.
  pose proof (recognizer_delete_triple (closed_at a) w (closed_at_put_rec a) a
                (fun x => x = w)
                (fun _ x => observed_since w x (closed_at a)
                            /\ Host_ckfree (RecognizerCtxBlock a) ∈ events x)) as H.
  cbv beta in H. specialize (fun H1 H2 => H H1 H2 w eq_refl). rewrite Hrun in H.
  apply H; clear H.
  - intros x ->. unfold store_rec.
    destruct (recognizers (mem w) !! a) as [c|] eqn:Hc; [|exact I]. split.
    + exists (set_closed 1 c). cbn. now rewrite lookup_insert_eq.
    + exists []. cbn. split; [now rewrite app_nil_r|constructor].
  - intros x (HR & new & Htr & Hobs). cbn. split.
    + exists (new ++ [(Host_ckfree (RecognizerCtxBlock a), mem x)]). split.
      * cbn. rewrite Htr. symmetry. apply app_assoc.
      * apply Forall_app. split; [exact Hobs|]. now constructor.
    + unfold events. cbn. rewrite fmap_app. apply elem_of_app. right.
      now apply list_elem_of_singleton.
Qed.

(** * Further properties of the four functions *)

(** ** reset *)

(** X1: on an open recognizer, reset calls the reset entry of the engine once,
    with the recognizer context, sets the result ok and returns TCL_OK;
    extra arguments are not looked at, and the memory is left as it was. *)
Theorem reset_forwards w a ctx m mc api f objv o1 :
  open_recognizer w a ctx m mc ->
  engine_funcs mc = Some api ->
  reset api = Some f ->
  objv !! 1%nat = Some o1 ->
  Tcl_GetString o1 = "reset" ->
  let w' := log (Host_SetObjResult (StringObj "ok"))
                (with_engine (f a (engine w)) (log (Call_reset a) w)) in
  RecognizerObjCmd (Some a) objv w = Ok TCL_OK w'
  /\ engine_calls w' = (engine_calls w ++ [Call_reset a])
  /\ mem w' = mem w.
Proof.
  intros Hopen Hapi Hf Ho1 Hsub w'. subst w'.
  pose proof (objc_ge_2 _ _ Ho1) as Hobjc.
  split; [now run_open Hopen|]. split; [|reflexivity].
  now rewrite engine_calls_log, engine_calls_with_engine, engine_calls_log, app_nil_r.
Qed.

(** ** The engine table is not checked by the recognizer handler *)

(** X2: the subcommands of a recognizer that forward to the engine (text,
    final-result, reset, and accept-waveform with a valid payload) do not
    test the table or its entry, unlike create_recognizer: on an open
    recognizer whose parent has a NULL table the handler faults on the
    table, and with a table whose entry is NULL it faults on the call. *)
Theorem recognizer_handler_trusts_engine_table w a ctx m mc objv o1 :
  open_recognizer w a ctx m mc ->
  objv !! 1%nat = Some o1 ->
  let sub := Tcl_GetString o1 in
  let valid_payload :=
    exists o0 o2 data len,
      objv = [o0; o1; o2] /\ Tcl_GetByteArrayFromObj o2 = (Some data, len) /\ 0 < len in
  let entry_missing (api : EngineAPI EngineState) :=
    (sub = "text" /\ get_text api = None)
    \/ (sub = "final-result" /\ get_final api = None)
    \/ (sub = "reset" /\ reset api = None)
    \/ (sub = "accept-waveform" /\ valid_payload /\ accept_waveform api = None) in
  (engine_funcs mc = None ->
   sub = "text" \/ sub = "final-result" \/ sub = "reset"
   \/ (sub = "accept-waveform" /\ valid_payload) ->
   RecognizerObjCmd (Some a) objv w = Fault NullPointer)
  /\ (forall api, engine_funcs mc = Some api -> entry_missing api ->
       RecognizerObjCmd (Some a) objv w = Fault NullFunction).
Proof.
  intros Hopen Ho1 sub valid_payload entry_missing.
  subst sub valid_payload entry_missing.
  pose proof (objc_ge_2 _ _ Ho1) as Hobjc.
  split.
  - intros Hnull [Hsub|[Hsub|[Hsub|(Hsub & o0 & o2 & data & len & -> & Hdata & Hlen)]]];
      try (assert ((len <=? 0) = false) as Hpos by now apply Z.leb_gt);
      now run_open Hopen.
  - intros api Hapi
      [(Hsub & Hf)|[(Hsub & Hf)|[(Hsub & Hf)
       |(Hsub & (o0 & o2 & data & len & -> & Hdata & Hlen) & Hf)]]];
      try (assert ((len <=? 0) = false) as Hpos by now apply Z.leb_gt);
      now run_open Hopen.
Qed.

(** ** create_recognizer with a malformed rate *)

(** X3: when the host cannot read the rate word as an integer, the model
    handler returns TCL_ERROR at once: it appends no message of its own
    (the host has left one), calls nothing in the engine and has not read
    the context, so this holds on any non-NULL context pointer. *)
Theorem create_recognizer_rejects_malformed_rate w a o0 o1 o2 o3 :
  Tcl_GetString o1 = "create_recognizer" ->
  Tcl_GetString o2 = "-rate" ->
  Tcl_GetIntFromObj o3 = None ->
  ModelObjCmd (Some a) [o0; o1; o2; o3] w = Ok TCL_ERROR (log (Host_GetIntFromObj o3) w)
  /\ events (log (Host_GetIntFromObj o3) w) = events w ++ [Host_GetIntFromObj o3]
  /\ engine_calls (log (Host_GetIntFromObj o3) w) = engine_calls w.
Proof.
  intros Hsub Hrate Hint. split; [now run|]. split.
  - apply events_log.
  - now rewrite engine_calls_log, app_nil_r.
Qed.

(** ** What the destructors leave alone *)

Ltac run_delete_in H :=
  revert H; run_delete;
  first [discriminate | intros [= <-]; cbn; rewrite ?delete_insert_eq; auto].

Lemma model_delete_mem a w w' :
  model_delete (Some a) w = Ok tt w' ->
  models (mem w') = delete a (models (mem w))
  /\ recognizers (mem w') = recognizers (mem w)
  /\ commands w' = commands w.
Proof.
  intros H.
  destruct (models (mem w) !! a) as [[mo pa ty cn ef]|] eqn:Hlive;
    [|now run_delete_in H].
  destruct mo as [h|], ef as [api|];
    try (destruct (model_free api) as [f|] eqn:Hf);
    destruct pa as [p|], ty as [t|], cn as [c|];
    now run_delete_in H.
Qed.

Lemma recognizer_delete_mem a w w' :
  recognizer_delete (Some a) w = Ok tt w' ->
  recognizers (mem w') = delete a (recognizers (mem w))
  /\ models (mem w') = models (mem w)
  /\ commands w' = commands w.
Proof.
  intros H.
  destruct (recognizers (mem w) !! a) as [[re rm pm cn cl]|] eqn:Hlive;
    [|now run_delete_in H].
  destruct re as [h|]; [destruct pm as [m|] |].
  - destruct (models (mem w) !! m) as [mc|] eqn:Hmc; [|now run_delete_in H].
    destruct (engine_funcs mc) as [api|] eqn:Hapi;
      try (destruct (recognizer_free api) as [f|] eqn:Hf);
      destruct cn as [c|]; now run_delete_in H.
  - destruct cn as [c|]; now run_delete_in H.
  - destruct cn as [c|]; now run_delete_in H.
Qed.

(** X4: whenever a destructor returns, it has removed its own context from
    the heap and nothing else: the recognizer destructor leaves every
    model context as it was (it drops its reference to the parent, it does
    not free it), the model destructor leaves every recognizer context as
    it was (it does not close or free the recognizers of the model), and
    neither touches the command table. *)
Theorem destructors_free_only_their_own_context a w w' :
  (recognizer_delete (Some a) w = Ok tt w' ->
     recognizers (mem w') = delete a (recognizers (mem w))
     /\ models (mem w') = models (mem w)
     /\ commands w' = commands w)
  /\ (model_delete (Some a) w = Ok tt w' ->
     models (mem w') = delete a (models (mem w))
     /\ recognizers (mem w') = recognizers (mem w)
     /\ commands w' = commands w).
Proof. split; [apply recognizer_delete_mem|apply model_delete_mem]. Qed.

(** ** close *)

Lemma objc_extra (extra : list Tcl_Obj) :
  (Z.of_nat (S (S (length extra))) <? 2) = false.
Proof. apply Z.ltb_ge. lia. Qed.

(** The destructors on a live context, their releases in order. *)
Lemma model_delete_live a w ctx :
  models (mem w) !! a = Some ctx ->
  (forall api, model ctx <> None -> engine_funcs ctx = Some api ->
               is_Some (model_free api)) ->
  exists w',
    model_delete (Some a) w = Ok tt w'
    /\ events w' = events w ++
         match model ctx, engine_funcs ctx with
         | Some h, Some _ => [Call_model_free h]
         | _, _ => []
         end ++
         match model_path ctx with
         | Some s => [Host_ckfree (StringBlock s)]
         | None => []
         end ++
         match engine_type ctx with
         | Some s => [Host_ckfree (StringBlock s)]
         | None => []
         end ++
         match cmdname ctx with
         | Some o => [Host_DecrRefCount o]
         | None => []
         end ++
         [Host_ckfree (ModelCtxBlock a)].
Proof.
  destruct ctx as [mo pa ty cn ef]. intros Hlive Hfree. cbn in Hfree.
  destruct mo as [h|], ef as [api|];
    try (destruct (Hfree api ltac:(discriminate) eq_refl) as [f Hf]);
    destruct pa as [p|], ty as [t|], cn as [c|];
    (eexists; split; [run_delete; reflexivity|events_eq]).
Qed.

Lemma recognizer_delete_live a w ctx m mc :
  recognizers (mem w) !! a = Some ctx ->
  model_ctx ctx = Some m ->
  models (mem w) !! m = Some mc ->
  (forall api, recognizer ctx <> None -> engine_funcs mc = Some api ->
               is_Some (recognizer_free api)) ->
  exists w',
    recognizer_delete (Some a) w = Ok tt w'
    /\ events w' = events w ++
         match recognizer ctx, engine_funcs mc with
         | Some h, Some _ => [Call_recognizer_free h]
         | _, _ => []
         end ++
         match rec_cmdname ctx with
         | Some o => [Host_DecrRefCount o]
         | None => []
         end ++
         [Host_ckfree (RecognizerCtxBlock a)].
Proof.
  destruct ctx as [re rm pm cn cl]. intros Hlive Hparent Hmodel Hfree. cbn in *. subst pm.
  destruct re as [h|];
    [destruct (engine_funcs mc) as [api|] eqn:Hapi;
       [destruct (Hfree api ltac:(discriminate) eq_refl) as [f Hf]|] |];
    destruct cn as [c|];
    (eexists; split; [run_delete; reflexivity|events_eq]).
Qed.

(** The world in which the destructor of a deleted command starts. *)
Lemma Tcl_DeleteCommand_runs name w :
  Tcl_DeleteCommand name w =
  match commands w !! name with
  | None => Ok tt (log (Host_DeleteCommand name) w)
  | Some (ModelCommand a) =>
      model_delete (Some a)
        (mkWorld (mem w) (delete name (commands w)) (engine w)
                 (trace w ++ [(Host_DeleteCommand name, mem w)]))
  | Some (RecognizerCommand a) =>
      recognizer_delete (Some a)
        (mkWorld (mem w) (delete name (commands w)) (engine w)
                 (trace w ++ [(Host_DeleteCommand name, mem w)]))
  end.
Proof.
  unfold Tcl_DeleteCommand, registered, unregister, emit, mbind, M_bind, log. cbn [commands].
  destruct (commands w !! name) as [[a|a]|]; reflexivity.
Qed.

Local Arguments Tcl_DeleteCommand : simpl never.

Lemma ModelObjCmd_close a o0 o1 extra w :
  Tcl_GetString o1 = "close" ->
  ModelObjCmd (Some a) (o0 :: o1 :: extra) w =
  (Tcl_DeleteCommand (Tcl_GetString o0);;
   Tcl_SetObjResult (Tcl_NewStringObj "ok");; mret TCL_OK) w.
Proof. intros Hsub. pose proof (objc_extra extra) as Hobjc. now run. Qed.

Lemma RecognizerObjCmd_close w a ctx m mc o0 o1 extra :
  open_recognizer w a ctx m mc ->
  Tcl_GetString o1 = "close" ->
  RecognizerObjCmd (Some a) (o0 :: o1 :: extra) w =
  (Tcl_DeleteCommand (Tcl_GetString o0);;
   Tcl_SetObjResult (Tcl_NewStringObj "ok");; mret TCL_OK) w.
Proof. intros Hopen Hsub. pose proof (objc_extra extra) as Hobjc. now run_open Hopen. Qed.

Lemma close_tail name w w1 :
  Tcl_DeleteCommand name w = Ok tt w1 ->
  (Tcl_DeleteCommand name;;
   Tcl_SetObjResult (Tcl_NewStringObj "ok");; mret TCL_OK) w
  = Ok TCL_OK (log (Host_SetObjResult (StringObj "ok")) w1).
Proof. intros H. now rewrite (bind_Ok _ _ _ _ _ H). Qed.

(** X5: close on an open recognizer whose command is registered under the
    name it was invoked by: the command is unregistered and the destructor
    runs inside the handler, so on return the context is gone from the
    heap; the model contexts are untouched; the result is ok and the
    handler returns TCL_OK.  Extra arguments are ignored. *)
Theorem recognizer_close_destroys w a ctx m mc o0 o1 extra :
  open_recognizer w a ctx m mc ->
  Tcl_GetString o1 = "close" ->
  commands w !! Tcl_GetString o0 = Some (RecognizerCommand a) ->
  (forall api, recognizer ctx <> None -> engine_funcs mc = Some api ->
               is_Some (recognizer_free api)) ->
  exists w',
    RecognizerObjCmd (Some a) (o0 :: o1 :: extra) w = Ok TCL_OK w'
    /\ events w' = events w ++
         [Host_DeleteCommand (Tcl_GetString o0)] ++
         match recognizer ctx, engine_funcs mc with
         | Some h, Some _ => [Call_recognizer_free h]
         | _, _ => []
         end ++
         match rec_cmdname ctx with
         | Some o => [Host_DecrRefCount o]
         | None => []
         end ++
         [Host_ckfree (RecognizerCtxBlock a); Host_SetObjResult (StringObj "ok")]
    /\ recognizers (mem w') = delete a (recognizers (mem w))
    /\ models (mem w') = models (mem w)
    /\ commands w' = delete (Tcl_GetString o0) (commands w).
Proof.
  intros Hopen Hsub Hreg Hfree.
  pose proof Hopen as (Hlive & Hclosed & Hparent & Hmodel).
  destruct (recognizer_delete_live a
              (mkWorld (mem w) (delete (Tcl_GetString o0) (commands w)) (engine w)
                       (trace w ++ [(Host_DeleteCommand (Tcl_GetString o0), mem w)]))
              ctx m mc Hlive Hparent Hmodel Hfree) as (w1 & Hrun & Hev).
  destruct (recognizer_delete_mem _ _ _ Hrun) as (Hrecs & Hmodels & Hcmds).
  exists (log (Host_SetObjResult (StringObj "ok")) w1). split; [|split].
  - rewrite (RecognizerObjCmd_close _ _ _ _ _ _ _ _ Hopen Hsub).
    apply close_tail. now rewrite Tcl_DeleteCommand_runs, Hreg.
  - rewrite events_log, Hev. unfold events. cbn [trace].
    rewrite fmap_app. cbn. now rewrite <- !app_assoc.
  - now split; [|split].
Qed.

(** X6: close on a model whose command is registered under the name it was
    invoked by: the command is unregistered and the model destructor runs
    inside the handler, so the model context is gone on return.  Nothing
    is done about the recognizers created from the model: every
    recognizer context is left exactly as it was, parent pointer included. *)
Theorem model_close_destroys w a ctx o0 o1 extra :
  models (mem w) !! a = Some ctx ->
  Tcl_GetString o1 = "close" ->
  commands w !! Tcl_GetString o0 = Some (ModelCommand a) ->
  (forall api, model ctx <> None -> engine_funcs ctx = Some api ->
               is_Some (model_free api)) ->
  exists w',
    ModelObjCmd (Some a) (o0 :: o1 :: extra) w = Ok TCL_OK w'
    /\ events w' = events w ++
         [Host_DeleteCommand (Tcl_GetString o0)] ++
         match model ctx, engine_funcs ctx with
         | Some h, Some _ => [Call_model_free h]
         | _, _ => []
         end ++
         match model_path ctx with
         | Some s => [Host_ckfree (StringBlock s)]
         | None => []
         end ++
         match engine_type ctx with
         | Some s => [Host_ckfree (StringBlock s)]
         | None => []
         end ++
         match cmdname ctx with
         | Some o => [Host_DecrRefCount o]
         | None => []
         end ++
         [Host_ckfree (ModelCtxBlock a); Host_SetObjResult (StringObj "ok")]
    /\ models (mem w') = delete a (models (mem w))
    /\ recognizers (mem w') = recognizers (mem w)
    /\ commands w' = delete (Tcl_GetString o0) (commands w).
Proof.
  intros Hlive Hsub Hreg Hfree.
  destruct (model_delete_live a
              (mkWorld (mem w) (delete (Tcl_GetString o0) (commands w)) (engine w)
                       (trace w ++ [(Host_DeleteCommand (Tcl_GetString o0), mem w)]))
              ctx Hlive Hfree) as (w1 & Hrun & Hev).
  destruct (model_delete_mem _ _ _ Hrun) as (Hmodels & Hrecs & Hcmds).
  exists (log (Host_SetObjResult (StringObj "ok")) w1). split; [|split].
  - rewrite (ModelObjCmd_close _ _ _ _ _ Hsub).
    apply close_tail. now rewrite Tcl_DeleteCommand_runs, Hreg.
  - rewrite events_log, Hev. unfold events. cbn [trace].
    rewrite fmap_app. cbn. now rewrite <- !app_assoc.
  - now split; [|split].
Qed.

(** X7: close reports success whatever the host did: when no command is
    registered under the name the handler was invoked by, nothing is
    unregistered, no destructor runs and no context is freed, and the
    handler still sets the result ok and returns TCL_OK. *)
Theorem close_reports_ok_when_nothing_is_deleted w a o0 o1 extra :
  Tcl_GetString o1 = "close" ->
  commands w !! Tcl_GetString o0 = None ->
  let w' := log (Host_SetObjResult (StringObj "ok"))
                (log (Host_DeleteCommand (Tcl_GetString o0)) w) in
  ModelObjCmd (Some a) (o0 :: o1 :: extra) w = Ok TCL_OK w'
  /\ (forall ctx m mc, open_recognizer w a ctx m mc ->
       RecognizerObjCmd (Some a) (o0 :: o1 :: extra) w = Ok TCL_OK w')
  /\ mem w' = mem w /\ commands w' = commands w /\ engine_calls w' = engine_calls w.
Proof.
  intros Hsub Hreg w'. subst w'.
  assert (Tcl_DeleteCommand (Tcl_GetString o0) w
          = Ok tt (log (Host_DeleteCommand (Tcl_GetString o0)) w)) as Hdel
    by now rewrite Tcl_DeleteCommand_runs, Hreg.
  split; [|split].
  - rewrite (ModelObjCmd_close _ _ _ _ _ Hsub). now apply close_tail.
  - intros ctx m mc Hopen.
    rewrite (RecognizerObjCmd_close _ _ _ _ _ _ _ _ Hopen Hsub). now apply close_tail.
  - split; [reflexivity|]. split; [reflexivity|].
    now rewrite !engine_calls_log, !app_nil_r.
Qed.

(** ** A recognizer that outlives its model *)

(** X8: once the model destructor has run, a recognizer created from that
    model is still in the heap, open, and points to the freed parent: any
    subcommand on it (close and unknown ones included) reads freed memory,
    and so does its own destructor when its engine handle is non-NULL. *)
Theorem recognizer_dangles_after_model_delete w w' a ctx m mc objv o1 :
  open_recognizer w a ctx m mc ->
  model_delete (Some m) w = Ok tt w' ->
  objv !! 1%nat = Some o1 ->
  recognizers (mem w') !! a = Some ctx
  /\ RecognizerObjCmd (Some a) objv w' = Fault DanglingPointer
  /\ (recognizer ctx <> None -> recognizer_delete (Some a) w' = Fault DanglingPointer).
Proof.
  intros (Hlive & Hclosed & Hparent & Hmodel) Hdel Ho1.
  destruct (model_delete_mem _ _ _ Hdel) as (Hmodels & Hrecs & _).
  pose proof (objc_ge_2 _ _ Ho1) as Hobjc.
  assert (recognizers (mem w') !! a = Some ctx) as Hlive' by now rewrite Hrecs.
  assert (models (mem w') !! m = None) as Hgone
    by (rewrite Hmodels; apply lookup_delete_eq).
  split; [exact Hlive'|]. split; [now run|].
  intros Hhandle. destruct ctx as [[h|] rm pm cn cl]; [|now destruct Hhandle].
  cbn in *. subst pm. now run_delete.
Qed.

(** ** Relating the world before and after *)

Lemma relates_bind {A B} (R1 R2 R3 : World EngineState -> World EngineState -> Prop)
    (c : M EngineState A) (k : A -> M EngineState B) :
  relates R1 c -> (forall x, relates R2 (k x)) ->
  (forall w1 w2 w3, R1 w1 w2 -> R2 w2 w3 -> R3 w1 w3) ->
  relates R3 (c ≫= k).
Proof.
  intros Hc Hk Hcomp w. specialize (Hc w). unfold mbind, M_bind.
  destruct (c w) as [x w1|f]; [|exact I].
  specialize (Hk x w1). destruct (k x w1) as [y w2|f]; [|exact I].
  now apply Hcomp with w1.
Qed.

Lemma relates_weaken {A} (R R' : World EngineState -> World EngineState -> Prop)
    (c : M EngineState A) :
  relates R c -> (forall w w', R w w' -> R' w w') -> relates R' c.
Proof.
  intros Hc Himp w. specialize (Hc w). destruct (c w); [now apply Himp|exact I].
Qed.

Lemma relates_arg_bind {B} (R : World EngineState -> World EngineState -> Prop)
    objv i (k : Tcl_Obj -> M EngineState B) :
  (forall o, objv !! i = Some o -> relates R (k o)) ->
  relates R (arg objv i ≫= k).
Proof.
  intros Hk w. unfold mbind, M_bind, arg.
  destruct (objv !! i) as [o|] eqn:Ho; [|exact I]. now apply Hk.
Qed.

(** *** Steps that leave the engine alone *)

Lemma quiet_refl w : quiet w w.
Proof. now split. Qed.

Lemma quiet_trans w1 w2 w3 : quiet w1 w2 -> quiet w2 w3 -> quiet w1 w3.
Proof. intros [H1 H2] [H3 H4]. split; congruence. Qed.

Lemma hushed_trans w1 w2 w3 : hushed w1 w2 -> hushed w2 w3 -> hushed w1 w3.
Proof. unfold hushed. congruence. Qed.

Lemma quiet_hushed w w' : quiet w w' -> hushed w w'.
Proof. now intros [H _]. Qed.

Lemma quiet_at_most w w' : quiet w w' -> at_most_one_engine_call w w'.
Proof.
  intros [Hcalls Hengine]. exists []. rewrite app_nil_r. split; [exact Hcalls|].
  split; [cbn; lia|now intros _].
Qed.

Lemma called_once_at_most w w' : called_once w w' -> at_most_one_engine_call w w'.
Proof.
  intros [e He]. exists [e]. split; [exact He|]. split; [cbn; lia|discriminate].
Qed.

Lemma called_once_hushed w1 w2 w3 :
  called_once w1 w2 -> hushed w2 w3 -> at_most_one_engine_call w1 w3.
Proof.
  intros [e He] Hh. apply called_once_at_most. exists e. unfold hushed in Hh. congruence.
Qed.

Lemma quiet_then_at_most w1 w2 w3 :
  quiet w1 w2 -> at_most_one_engine_call w2 w3 -> at_most_one_engine_call w1 w3.
Proof.
  intros [Hcalls Hengine] (l & Hl & Hlen & Hsame). exists l.
  split; [congruence|]. split; [exact Hlen|]. intros Hnil. rewrite Hsame; auto.
Qed.

Lemma at_most_then_quiet w1 w2 w3 :
  at_most_one_engine_call w1 w2 -> quiet w2 w3 -> at_most_one_engine_call w1 w3.
Proof.
  intros (l & Hl & Hlen & Hsame) [Hcalls Hengine]. exists l.
  split; [congruence|]. split; [exact Hlen|]. intros Hnil. rewrite Hengine; auto.
Qed.

Lemma quiet_ret {A} (x : A) : relates quiet (mret x : M EngineState A).
Proof. intros w. apply quiet_refl. Qed.

Lemma quiet_fault {A} k : relates quiet (@fault EngineState A k).
Proof. now intros w. Qed.

Lemma quiet_emit e : is_engine_call e = false -> relates quiet (@emit EngineState e).
Proof.
  intros He w. cbn. split; [|reflexivity].
  now rewrite engine_calls_log, He, app_nil_r.
Qed.

Lemma called_once_emit e : is_engine_call e = true -> relates called_once (@emit EngineState e).
Proof. intros He w. cbn. exists e. now rewrite engine_calls_log, He. Qed.

Lemma hushed_run_engine {A} (f : EngineState -> A * EngineState) : relates hushed (run_engine f).
Proof. now intros w. Qed.

Lemma hushed_run_engine_ (f : EngineState -> EngineState) : relates hushed (run_engine_ f).
Proof. now intros w. Qed.

Lemma quiet_deref p : relates quiet (@deref EngineState p).
Proof. destruct p; [apply quiet_ret|apply quiet_fault]. Qed.

Lemma quiet_fn_ptr {F} (f : option F) : relates quiet (@fn_ptr EngineState F f).
Proof. destruct f; [apply quiet_ret|apply quiet_fault]. Qed.

Lemma quiet_table (api : option (EngineAPI EngineState)) : relates quiet (table api).
Proof. destruct api; [apply quiet_ret|apply quiet_fault]. Qed.

Lemma quiet_arg objv i : relates quiet (@arg EngineState objv i).
Proof. unfold arg. destruct (objv !! i); [apply quiet_ret|apply quiet_fault]. Qed.

Lemma quiet_load_model {A} a (field : ModelCtx EngineState -> A) :
  relates quiet (load_model a field).
Proof. intros w. unfold load_model. destruct (models (mem w) !! a); [apply quiet_refl|exact I]. Qed.

Lemma quiet_load_rec {A} a (field : RecognizerCtx -> A) :
  relates quiet (@load_rec EngineState A a field).
Proof.
  intros w. unfold load_rec. destruct (recognizers (mem w) !! a); [apply quiet_refl|exact I].
Qed.

Lemma quiet_store_model a (upd : ModelCtx EngineState -> ModelCtx EngineState) :
  relates quiet (store_model a upd).
Proof. intros w. unfold store_model. now destruct (models (mem w) !! a). Qed.

Lemma quiet_store_rec a upd : relates quiet (@store_rec EngineState a upd).
Proof. intros w. unfold store_rec. now destruct (recognizers (mem w) !! a). Qed.

Lemma quiet_release_model a : relates quiet (@release_model EngineState a).
Proof. now intros w. Qed.

Lemma quiet_release_rec a : relates quiet (@release_rec EngineState a).
Proof. now intros w. Qed.

Lemma quiet_registered name : relates quiet (@registered EngineState name).
Proof. now intros w. Qed.

Lemma quiet_unregister name : relates quiet (@unregister EngineState name).
Proof. now intros w. Qed.

Ltac quiet_prim :=
  first
    [ apply quiet_ret | apply quiet_fault | apply quiet_emit; reflexivity
    | apply quiet_deref | apply quiet_fn_ptr | apply quiet_table | apply quiet_arg
    | apply quiet_load_model | apply quiet_load_rec
    | apply quiet_store_model | apply quiet_store_rec
    | apply quiet_release_model | apply quiet_release_rec
    | apply quiet_registered | apply quiet_unregister ].

Ltac quiet_go :=
  repeat lazymatch goal with
  | |- relates quiet (mbind _ _) =>
      eapply (relates_bind quiet quiet quiet); [|intros ?|exact quiet_trans]
  | |- relates quiet (match ?x with _ => _ end) => destruct x
  | |- _ => quiet_prim
  end.

Ltac hushed_go :=
  repeat lazymatch goal with
  | |- relates hushed (mbind _ _) =>
      eapply (relates_bind hushed hushed hushed); [|intros ?|exact hushed_trans]
  | |- relates hushed (match ?x with _ => _ end) => destruct x
  | |- _ =>
      first [ apply hushed_run_engine | apply hushed_run_engine_
            | eapply relates_weaken; [quiet_prim|exact quiet_hushed] ]
  end.

(** One pass over a command: what comes before the engine call is quiet,
    what comes after it is hushed or quiet. *)
Ltac at_most_go :=
  lazymatch goal with
  | |- relates at_most_one_engine_call (mbind _ _) =>
      first
        [ eapply (relates_bind quiet at_most_one_engine_call at_most_one_engine_call);
          [solve [unfold_quiet; quiet_go] | intros ?; at_most_go | exact quiet_then_at_most]
        | eapply (relates_bind at_most_one_engine_call quiet at_most_one_engine_call);
          [at_most_go | intros ?; solve [unfold_quiet; quiet_go] | exact at_most_then_quiet]
        | eapply (relates_bind called_once hushed at_most_one_engine_call);
          [apply called_once_emit; reflexivity | intros ?; solve [hushed_go]
          | exact called_once_hushed] ]
  | |- relates at_most_one_engine_call (match ?x with _ => _ end) =>
      destruct x; at_most_go
  | |- _ =>
      first [ match goal with H : _ |- _ => solve [apply H] end
            | eapply (relates_weaken quiet);
              [solve [unfold_quiet; quiet_go]|exact quiet_at_most] ]
  end
with unfold_quiet :=
  unfold ckfree_model, ckfree_rec, ckfree_string, Tcl_DecrRefCount,
    Tcl_AppendResult, Tcl_SetObjResult, Tcl_WrongNumArgs, GetIntFromObj,
    recognizer_closed, create_recognizer_unsupported.

Lemma model_delete_at_most cd : relates at_most_one_engine_call (@model_delete EngineState cd).
Proof. unfold model_delete. at_most_go. Qed.

Lemma recognizer_delete_at_most cd :
  relates at_most_one_engine_call (@recognizer_delete EngineState cd).
Proof. unfold recognizer_delete. at_most_go. Qed.

Lemma Tcl_DeleteCommand_at_most name :
  relates at_most_one_engine_call (@Tcl_DeleteCommand EngineState name).
Proof.
  pose proof model_delete_at_most. pose proof recognizer_delete_at_most.
  unfold Tcl_DeleteCommand. at_most_go.
Qed.

Lemma RecognizerObjCmd_at_most cd objv :
  relates at_most_one_engine_call (@RecognizerObjCmd EngineState cd objv).
Proof.
  pose proof Tcl_DeleteCommand_at_most.
  unfold RecognizerObjCmd, RecognizerObjCmd_open,
    call_accept_waveform, call_get_text, call_get_final, call_reset.
  at_most_go.
Qed.

Lemma ModelObjCmd_at_most cd objv :
  relates at_most_one_engine_call (@ModelObjCmd EngineState cd objv).
Proof.
  pose proof Tcl_DeleteCommand_at_most.
  unfold ModelObjCmd. cbv zeta. at_most_go.
Qed.

(** X9: any one run of a handler or of a destructor calls the engine at most
    once, and when it makes no call the engine state is what it was. *)
Theorem one_engine_call_per_operation w w' :
  step w w' -> at_most_one_engine_call w w'.
Proof.
  intros [cd objv w0 rc w1 Hrun|cd objv w0 rc w1 Hrun|cd w0 w1 Hrun|cd w0 w1 Hrun].
  - pose proof (RecognizerObjCmd_at_most cd objv w0) as H. now rewrite Hrun in H.
  - pose proof (ModelObjCmd_at_most cd objv w0) as H. now rewrite Hrun in H.
  - pose proof (recognizer_delete_at_most cd w0) as H. now rewrite Hrun in H.
  - pose proof (model_delete_at_most cd w0) as H. now rewrite Hrun in H.
Qed.

(** *** Steps that leave the memory alone *)

Lemma same_memory_refl w : same_memory w w.
Proof. now split. Qed.

Lemma same_memory_trans w1 w2 w3 :
  same_memory w1 w2 -> same_memory w2 w3 -> same_memory w1 w3.
Proof. intros [H1 H2] [H3 H4]. split; congruence. Qed.

Lemma same_memory_ret {A} (x : A) : relates same_memory (mret x : M EngineState A).
Proof. intros w. apply same_memory_refl. Qed.

Lemma same_memory_fault {A} k : relates same_memory (@fault EngineState A k).
Proof. now intros w. Qed.

Lemma same_memory_emit e : relates same_memory (@emit EngineState e).
Proof. now intros w. Qed.

Lemma same_memory_run_engine {A} (f : EngineState -> A * EngineState) :
  relates same_memory (run_engine f).
Proof. now intros w. Qed.

Lemma same_memory_run_engine_ (f : EngineState -> EngineState) :
  relates same_memory (run_engine_ f).
Proof. now intros w. Qed.

Lemma same_memory_deref p : relates same_memory (@deref EngineState p).
Proof. destruct p; [apply same_memory_ret|apply same_memory_fault]. Qed.

Lemma same_memory_fn_ptr {F} (f : option F) : relates same_memory (@fn_ptr EngineState F f).
Proof. destruct f; [apply same_memory_ret|apply same_memory_fault]. Qed.

Lemma same_memory_table (api : option (EngineAPI EngineState)) :
  relates same_memory (table api).
Proof. destruct api; [apply same_memory_ret|apply same_memory_fault]. Qed.

Lemma same_memory_load_model {A} a (field : ModelCtx EngineState -> A) :
  relates same_memory (load_model a field).
Proof.
  intros w. unfold load_model.
  destruct (models (mem w) !! a); [apply same_memory_refl|exact I].
Qed.

Lemma same_memory_load_rec {A} a (field : RecognizerCtx -> A) :
  relates same_memory (@load_rec EngineState A a field).
Proof.
  intros w. unfold load_rec.
  destruct (recognizers (mem w) !! a); [apply same_memory_refl|exact I].
Qed.

Ltac same_memory_go :=
  repeat lazymatch goal with
  | |- relates same_memory (mbind _ (arg _ _)) =>
      apply relates_arg_bind;
      let o := fresh "o" in
      let Ho := fresh "Ho" in
      intros o Ho;
      try match goal with
          | Hsub : forall o1, _ !! 1%nat = Some o1 -> _ |- _ =>
              pose proof (strcmp_other _ _ (Hsub o Ho))
          end
  | |- relates same_memory (mbind _ _) =>
      eapply (relates_bind same_memory same_memory same_memory);
      [|intros ?|exact same_memory_trans]
  | |- relates same_memory (if strcmp ?s ?t =? 0 then _ else _) =>
      first
        [ match goal with
          | H : (strcmp s t =? 0) = false |- _ => rewrite H
          end
        | destruct (strcmp s t =? 0) ]
  | |- relates same_memory (match ?x with _ => _ end) => destruct x
  | |- _ =>
      first
        [ apply same_memory_ret | apply same_memory_fault | apply same_memory_emit
        | apply same_memory_run_engine | apply same_memory_run_engine_
        | apply same_memory_deref | apply same_memory_fn_ptr | apply same_memory_table
        | apply same_memory_load_model | apply same_memory_load_rec ]
  end.

(** X10: only close changes the memory: whatever else a recognizer is asked
    (accept-waveform, text, final-result, reset, an unknown or a malformed
    command, on an open, closed or NULL context), when the handler returns
    every context is exactly as it was, closed flags and engine handles
    included, and so is the command table.  (The engine, for its part, is
    taken not to write to the context it is handed.) *)
Theorem only_close_changes_memory cd objv w rc w' :
  (forall o1, objv !! 1%nat = Some o1 -> Tcl_GetString o1 <> "close") ->
  RecognizerObjCmd cd objv w = Ok rc w' ->
  mem w' = mem w /\ commands w' = commands w.
Proof.
  intros Hsub Hrun.
  assert (relates same_memory (@RecognizerObjCmd EngineState cd objv)) as H.
  { unfold RecognizerObjCmd, RecognizerObjCmd_open, recognizer_closed,
      call_accept_waveform, call_get_text, call_get_final, call_reset,
      Tcl_AppendResult, Tcl_SetObjResult, Tcl_WrongNumArgs.
    cbv zeta. same_memory_go. }
  specialize (H w). now rewrite Hrun in H.
Qed.

(** *** Steps that only remove *)

Lemma only_removes_trans w1 w2 w3 :
  only_removes w1 w2 -> only_removes w2 w3 -> only_removes w1 w3.
Proof.
  intros (H1 & H2 & H3) (H4 & H5 & H6).
  split; [|split]; etrans; eassumption.
Qed.

Lemma same_memory_only_removes w w' : same_memory w w' -> only_removes w w'.
Proof. intros [Hm Hc]. unfold only_removes. rewrite Hm, Hc. now split; [|split]. Qed.

Lemma model_delete_only_removes cd : relates only_removes (@model_delete EngineState cd).
Proof.
  intros w. destruct (model_delete cd w) as [[] w'|] eqn:Hrun; [|exact I].
  destruct cd as [a|]; [|injection Hrun as <-; now split; [|split]].
  destruct (model_delete_mem _ _ _ Hrun) as (Hm & Hr & Hc).
  unfold only_removes. rewrite Hm, Hr, Hc.
  split; [reflexivity|]. split; [apply delete_subseteq|reflexivity].
Qed.

Lemma recognizer_delete_only_removes cd :
  relates only_removes (@recognizer_delete EngineState cd).
Proof.
  intros w. destruct (recognizer_delete cd w) as [[] w'|] eqn:Hrun; [|exact I].
  destruct cd as [a|]; [|injection Hrun as <-; now split; [|split]].
  destruct (recognizer_delete_mem _ _ _ Hrun) as (Hr & Hm & Hc).
  unfold only_removes. rewrite Hm, Hr, Hc.
  split; [apply delete_subseteq|]. now split.
Qed.

Lemma Tcl_DeleteCommand_only_removes name :
  relates only_removes (@Tcl_DeleteCommand EngineState name).
Proof.
  intros w. rewrite Tcl_DeleteCommand_runs.
  destruct (commands w !! name) as [[a|a]|]; [| |now split; [|split]].
  - match goal with
    | |- match model_delete _ ?W with _ => _ end =>
        pose proof (model_delete_only_removes (Some a) W) as H;
        destruct (model_delete (Some a) W); [|exact I]
    end.
    eapply only_removes_trans; [|exact H].
    split; [reflexivity|]. split; [reflexivity|apply delete_subseteq].
  - match goal with
    | |- match recognizer_delete _ ?W with _ => _ end =>
        pose proof (recognizer_delete_only_removes (Some a) W) as H;
        destruct (recognizer_delete (Some a) W); [|exact I]
    end.
    eapply only_removes_trans; [|exact H].
    split; [reflexivity|]. split; [reflexivity|apply delete_subseteq].
Qed.

Ltac only_removes_go :=
  repeat lazymatch goal with
  | |- relates only_removes (mbind _ _) =>
      eapply (relates_bind only_removes only_removes only_removes);
      [|intros ?|exact only_removes_trans]
  | |- relates only_removes (match ?x with _ => _ end) => destruct x
  | |- _ =>
      first
        [ match goal with H : _ |- _ => solve [apply H] end
        | eapply (relates_weaken same_memory);
          [ first
              [ apply same_memory_ret | apply same_memory_fault | apply same_memory_emit
              | apply same_memory_run_engine | apply same_memory_run_engine_
              | apply same_memory_deref | apply same_memory_fn_ptr
              | apply same_memory_table | apply same_memory_load_model
              | apply same_memory_load_rec
              | unfold arg; destruct (_ !! _);
                [apply same_memory_ret|apply same_memory_fault] ]
          | exact same_memory_only_removes ] ]
  end.

Lemma RecognizerObjCmd_only_removes cd objv :
  relates only_removes (@RecognizerObjCmd EngineState cd objv).
Proof.
  pose proof Tcl_DeleteCommand_only_removes.
  unfold RecognizerObjCmd, RecognizerObjCmd_open, recognizer_closed,
    call_accept_waveform, call_get_text, call_get_final, call_reset,
    Tcl_AppendResult, Tcl_SetObjResult, Tcl_WrongNumArgs.
  cbv zeta. only_removes_go.
Qed.

Lemma ModelObjCmd_only_removes cd objv :
  relates only_removes (@ModelObjCmd EngineState cd objv).
Proof.
  pose proof Tcl_DeleteCommand_only_removes.
  unfold ModelObjCmd, create_recognizer_unsupported, GetIntFromObj,
    Tcl_AppendResult, Tcl_SetObjResult, Tcl_WrongNumArgs.
  cbv zeta. only_removes_go.
Qed.

Lemma step_only_removes w w' : step w w' -> only_removes w w'.
Proof.
  intros [cd objv w0 rc w1 Hrun|cd objv w0 rc w1 Hrun|cd w0 w1 Hrun|cd w0 w1 Hrun].
  - pose proof (RecognizerObjCmd_only_removes cd objv w0) as H. now rewrite Hrun in H.
  - pose proof (ModelObjCmd_only_removes cd objv w0) as H. now rewrite Hrun in H.
  - pose proof (recognizer_delete_only_removes cd w0) as H. now rewrite Hrun in H.
  - pose proof (model_delete_only_removes cd w0) as H. now rewrite Hrun in H.
Qed.

Lemma steps_only_remove w w' : rtc step w w' -> only_removes w w'.
Proof.
  induction 1 as [w|w w1 w2 Hstep _ IH].
  - now split; [|split].
  - apply (only_removes_trans w w1 w2); [apply step_only_removes, Hstep|exact IH].
Qed.

(** ** The closed flag from one observation to the next *)

Lemma successive_join (R : Mem EngineState -> Mem EngineState -> Prop) :
  (forall x1 x2 x3 : Mem EngineState, R x1 x2 -> R x2 x3 -> R x1 x3) ->
  forall l1 (x0 x y : Mem EngineState) l2,
    successive R x0 (l1 ++ [x]) -> successive R x (y :: l2) ->
    successive R x0 (l1 ++ y :: l2).
Proof.
  intros Htrans l1. induction l1 as [|z l1 IH]; intros x0 x y l2; cbn.
  - intros [Hmx _] [Hxy Hrest]. split; [now apply Htrans with x|exact Hrest].
  - intros [Hmz Hl1] Hl2. split; [exact Hmz|]. now apply IH with x.
Qed.

Lemma monotone_run_trans w1 w2 w3 :
  monotone_run w1 w2 -> monotone_run w2 w3 -> monotone_run w1 w3.
Proof.
  intros (new1 & Htr1 & Hs1) (new2 & Htr2 & Hs2).
  exists (new1 ++ new2). split; [now rewrite Htr2, Htr1, app_assoc|].
  rewrite fmap_app, <- app_assoc.
  destruct (new2.*2 ++ [mem w3]) as [|y l2] eqn:Hl2.
  - now destruct (new2.*2).
  - now apply (successive_join closed_monotone closed_monotone_trans) with (mem w2).
Qed.

(** No call, and a memory that follows the one before. *)
Lemma monotone_run_silent w w' :
  trace w' = trace w -> closed_monotone (mem w) (mem w') -> monotone_run w w'.
Proof.
  intros Htr Hmono. exists []. split; [now rewrite app_nil_r|]. cbn. now split.
Qed.

Lemma monotone_run_refl w : monotone_run w w.
Proof. apply monotone_run_silent; [reflexivity|apply closed_monotone_refl]. Qed.

Lemma monotone_ret {A} (x : A) : relates monotone_run (mret x : M EngineState A).
Proof. intros w. apply monotone_run_refl. Qed.

Lemma monotone_fault {A} k : relates monotone_run (@fault EngineState A k).
Proof. now intros w. Qed.

Lemma monotone_emit e : relates monotone_run (@emit EngineState e).
Proof.
  intros w. cbn. exists [(e, mem w)]. split; [reflexivity|]. cbn.
  split; [apply closed_monotone_refl|]. split; [apply closed_monotone_refl|exact I].
Qed.

Lemma monotone_run_engine {A} (f : EngineState -> A * EngineState) :
  relates monotone_run (run_engine f).
Proof. intros w. apply monotone_run_silent; [reflexivity|apply closed_monotone_refl]. Qed.

Lemma monotone_run_engine_ (f : EngineState -> EngineState) :
  relates monotone_run (run_engine_ f).
Proof. intros w. apply monotone_run_silent; [reflexivity|apply closed_monotone_refl]. Qed.

Lemma monotone_deref p : relates monotone_run (@deref EngineState p).
Proof. destruct p; [apply monotone_ret|apply monotone_fault]. Qed.

Lemma monotone_fn_ptr {F} (f : option F) : relates monotone_run (@fn_ptr EngineState F f).
Proof. destruct f; [apply monotone_ret|apply monotone_fault]. Qed.

Lemma monotone_table (api : option (EngineAPI EngineState)) : relates monotone_run (table api).
Proof. destruct api; [apply monotone_ret|apply monotone_fault]. Qed.

Lemma monotone_arg objv i : relates monotone_run (@arg EngineState objv i).
Proof. unfold arg. destruct (objv !! i); [apply monotone_ret|apply monotone_fault]. Qed.

Lemma monotone_load_model {A} a (field : ModelCtx EngineState -> A) :
  relates monotone_run (load_model a field).
Proof.
  intros w. unfold load_model.
  destruct (models (mem w) !! a); [apply monotone_run_refl|exact I].
Qed.

Lemma monotone_load_rec {A} a (field : RecognizerCtx -> A) :
  relates monotone_run (@load_rec EngineState A a field).
Proof.
  intros w. unfold load_rec.
  destruct (recognizers (mem w) !! a); [apply monotone_run_refl|exact I].
Qed.

Lemma monotone_store_model a (upd : ModelCtx EngineState -> ModelCtx EngineState) :
  relates monotone_run (store_model a upd).
Proof.
  intros w. unfold store_model. destruct (models (mem w) !! a); [|exact I].
  apply monotone_run_silent; [reflexivity|]. intros b c Hb. now exists c.
Qed.

(** A store to a recognizer that leaves the closed flag as it is or sets
    it to 1. *)
Lemma monotone_store_rec a upd :
  (forall c, closed (upd c) = closed c \/ closed (upd c) = 1) ->
  relates monotone_run (@store_rec EngineState a upd).
Proof.
  intros Hupd w. unfold store_rec.
  destruct (recognizers (mem w) !! a) as [c|] eqn:Hc; [|exact I].
  apply monotone_run_silent; [reflexivity|].
  apply closed_monotone_put_rec with c;
    [apply closed_monotone_refl|exact Hc|apply Hupd].
Qed.

Lemma monotone_release_model a : relates monotone_run (@release_model EngineState a).
Proof.
  intros w. apply monotone_run_silent; [reflexivity|]. intros b c Hb. now exists c.
Qed.

Lemma monotone_release_rec a : relates monotone_run (@release_rec EngineState a).
Proof.
  intros w. apply monotone_run_silent; [reflexivity|].
  apply closed_monotone_drop_rec, closed_monotone_refl.
Qed.

Lemma monotone_registered name : relates monotone_run (@registered EngineState name).
Proof. intros w. apply monotone_run_refl. Qed.

Lemma monotone_unregister name : relates monotone_run (@unregister EngineState name).
Proof. intros w. apply monotone_run_silent; [reflexivity|apply closed_monotone_refl]. Qed.

Ltac monotone_go :=
  repeat lazymatch goal with
  | |- relates monotone_run (mbind _ _) =>
      eapply (relates_bind monotone_run monotone_run monotone_run);
      [|intros ?|exact monotone_run_trans]
  | |- relates monotone_run (match ?x with _ => _ end) => destruct x
  | |- _ =>
      first
        [ match goal with H : _ |- _ => solve [apply H] end
        | apply monotone_ret | apply monotone_fault | apply monotone_emit
        | apply monotone_run_engine | apply monotone_run_engine_
        | apply monotone_deref | apply monotone_fn_ptr | apply monotone_table
        | apply monotone_arg | apply monotone_load_model | apply monotone_load_rec
        | apply monotone_store_model
        | apply monotone_store_rec; intros ?; cbn; tauto
        | apply monotone_release_model | apply monotone_release_rec
        | apply monotone_registered | apply monotone_unregister ]
  end.

Ltac unfold_host :=
  unfold ckfree_model, ckfree_rec, ckfree_string, Tcl_DecrRefCount,
    Tcl_AppendResult, Tcl_SetObjResult, Tcl_WrongNumArgs, GetIntFromObj,
    recognizer_closed, create_recognizer_unsupported,
    call_accept_waveform, call_get_text, call_get_final, call_reset.

Lemma model_delete_monotone cd : relates monotone_run (@model_delete EngineState cd).
Proof. unfold model_delete. unfold_host. monotone_go. Qed.

Lemma recognizer_delete_monotone cd : relates monotone_run (@recognizer_delete EngineState cd).
Proof. unfold recognizer_delete. unfold_host. monotone_go. Qed.

Lemma Tcl_DeleteCommand_monotone name :
  relates monotone_run (@Tcl_DeleteCommand EngineState name).
Proof.
  pose proof model_delete_monotone. pose proof recognizer_delete_monotone.
  unfold Tcl_DeleteCommand. monotone_go.
Qed.

Lemma RecognizerObjCmd_monotone cd objv :
  relates monotone_run (@RecognizerObjCmd EngineState cd objv).
Proof.
  pose proof Tcl_DeleteCommand_monotone.
  unfold RecognizerObjCmd, RecognizerObjCmd_open. unfold_host. cbv zeta. monotone_go.
Qed.

Lemma ModelObjCmd_monotone cd objv :
  relates monotone_run (@ModelObjCmd EngineState cd objv).
Proof.
  pose proof Tcl_DeleteCommand_monotone.
  unfold ModelObjCmd. unfold_host. cbv zeta. monotone_go.
Qed.

Lemma step_monotone_run w w' : step w w' -> monotone_run w w'.
Proof.
  intros [cd objv w0 rc w1 Hrun|cd objv w0 rc w1 Hrun|cd w0 w1 Hrun|cd w0 w1 Hrun].
  - pose proof (RecognizerObjCmd_monotone cd objv w0) as H. now rewrite Hrun in H.
  - pose proof (ModelObjCmd_monotone cd objv w0) as H. now rewrite Hrun in H.
  - pose proof (recognizer_delete_monotone cd w0) as H. now rewrite Hrun in H.
  - pose proof (model_delete_monotone cd w0) as H. now rewrite Hrun in H.
Qed.

Lemma steps_monotone_run w w' : rtc step w w' -> monotone_run w w'.
Proof.
  induction 1 as [w|w w1 w2 Hstep _ IH].
  - apply monotone_run_refl.
  - apply (monotone_run_trans w w1 w2); [apply step_monotone_run, Hstep|exact IH].
Qed.

(** C8: the closed flag only goes from clear to set.  Over any sequence
    of handler and destructor runs, line up the memory at the start, the
    memory that each call made on the way has observed, in order, and the
    memory at the end: from each of these to the next, a recognizer that
    is still there keeps a flag that was set (so no run sets the flag and
    clears it again later, whatever the flag is at the end); in
    particular this holds from the start to each of them and to the end.
    The recognizer destructor sets the flag before anything else it does:
    every call it makes (the engine free, the release of the command
    name, the free of the structure) finds the flag at 1. *)
Theorem closed_flag_is_monotone w w' :
  (rtc step w w' ->
     closed_monotone (mem w) (mem w')
     /\ observed_since w w' (closed_monotone (mem w))
     /\ monotone_run w w'
     /\ (forall a c c', recognizers (mem w) !! a = Some c -> closed c <> 0 ->
                        recognizers (mem w') !! a = Some c' -> closed c' <> 0))
  /\ (forall a, recognizer_delete (Some a) w = Ok tt w' ->
       observed_since w w' (closed_at a)
       /\ Host_ckfree (RecognizerCtxBlock a) ∈ events w').
Proof.
  split.
  - intros Hsteps. destruct (steps_kept _ _ Hsteps) as (Hmono & Hobs).
    split; [exact Hmono|]. split; [exact Hobs|].
    split; [now apply steps_monotone_run|].
    intros a c c' Hc Hset Hc'. destruct (Hmono a c' Hc') as (c0 & Hc0 & Hk).
    rewrite Hc in Hc0. injection Hc0 as <-. now apply Hk.
  - intros a. apply recognizer_delete_closed_first.
Qed.

(** ** Contexts seen on the way *)

Section Touches.

Variables pm pr : addr -> Prop.

Lemma agree_refl (x : Mem EngineState) : agree pm pr x x.
Proof. now split. Qed.

Lemma agree_trans (x1 x2 x3 : Mem EngineState) :
  agree pm pr x1 x2 -> agree pm pr x2 x3 -> agree pm pr x1 x3.
Proof.
  intros [H1 H2] [H3 H4]. split; intros b Hb.
  - now rewrite H3, H1.
  - now rewrite H4, H2.
Qed.

Lemma touches_only_trans w1 w2 w3 :
  touches_only pm pr w1 w2 -> touches_only pm pr w2 w3 -> touches_only pm pr w1 w3.
Proof.
  intros (Ha1 & new1 & Htr1 & Hobs1) (Ha2 & new2 & Htr2 & Hobs2). split.
  - now apply agree_trans with (mem w2).
  - exists (new1 ++ new2). split; [now rewrite Htr2, Htr1, app_assoc|].
    apply Forall_app. split; [exact Hobs1|].
    eapply Forall_impl; [exact Hobs2|]. intros em Hem.
    now apply agree_trans with (mem w2).
Qed.

Lemma touches_only_silent w w' :
  trace w' = trace w -> agree pm pr (mem w) (mem w') -> touches_only pm pr w w'.
Proof.
  intros Htr Ha. split; [exact Ha|]. exists []. split; [now rewrite app_nil_r|constructor].
Qed.

Lemma touches_ret {A} (x : A) : relates (touches_only pm pr) (mret x : M EngineState A).
Proof. intros w. apply touches_only_silent; [reflexivity|apply agree_refl]. Qed.

Lemma touches_fault {A} k : relates (touches_only pm pr) (@fault EngineState A k).
Proof. now intros w. Qed.

Lemma touches_emit e : relates (touches_only pm pr) (@emit EngineState e).
Proof.
  intros w. cbn. split; [apply agree_refl|]. exists [(e, mem w)].
  split; [reflexivity|]. constructor; [apply agree_refl|constructor].
Qed.

Lemma touches_run_engine {A} (f : EngineState -> A * EngineState) :
  relates (touches_only pm pr) (run_engine f).
Proof. intros w. apply touches_only_silent; [reflexivity|apply agree_refl]. Qed.

Lemma touches_run_engine_ (f : EngineState -> EngineState) :
  relates (touches_only pm pr) (run_engine_ f).
Proof. intros w. apply touches_only_silent; [reflexivity|apply agree_refl]. Qed.

Lemma touches_fn_ptr {F} (f : option F) : relates (touches_only pm pr) (@fn_ptr EngineState F f).
Proof. destruct f; [apply touches_ret|apply touches_fault]. Qed.

Lemma touches_load_model {A} a (field : ModelCtx EngineState -> A) :
  relates (touches_only pm pr) (load_model a field).
Proof.
  intros w. unfold load_model. destruct (models (mem w) !! a); [|exact I].
  apply touches_only_silent; [reflexivity|apply agree_refl].
Qed.

Lemma touches_load_rec {A} a (field : RecognizerCtx -> A) :
  relates (touches_only pm pr) (@load_rec EngineState A a field).
Proof.
  intros w. unfold load_rec. destruct (recognizers (mem w) !! a); [|exact I].
  apply touches_only_silent; [reflexivity|apply agree_refl].
Qed.

Lemma touches_store_model a (upd : ModelCtx EngineState -> ModelCtx EngineState) :
  pm a -> relates (touches_only pm pr) (store_model a upd).
Proof.
  intros Ha w. unfold store_model. destruct (models (mem w) !! a); [|exact I].
  apply touches_only_silent; [reflexivity|]. split; intros b Hb; cbn; [|reflexivity].
  apply lookup_insert_ne. now intros ->.
Qed.

Lemma touches_store_rec a upd :
  pr a -> relates (touches_only pm pr) (@store_rec EngineState a upd).
Proof.
  intros Ha w. unfold store_rec. destruct (recognizers (mem w) !! a); [|exact I].
  apply touches_only_silent; [reflexivity|]. split; intros b Hb; cbn; [reflexivity|].
  apply lookup_insert_ne. now intros ->.
Qed.

Lemma touches_release_model a : pm a -> relates (touches_only pm pr) (@release_model EngineState a).
Proof.
  intros Ha w. apply touches_only_silent; [reflexivity|].
  split; intros b Hb; cbn; [|reflexivity]. apply lookup_delete_ne. now intros ->.
Qed.

Lemma touches_release_rec a : pr a -> relates (touches_only pm pr) (@release_rec EngineState a).
Proof.
  intros Ha w. apply touches_only_silent; [reflexivity|].
  split; intros b Hb; cbn; [reflexivity|]. apply lookup_delete_ne. now intros ->.
Qed.

End Touches.

Ltac touches_go :=
  repeat lazymatch goal with
  | |- relates (touches_only ?pm ?pr) (mbind _ _) =>
      eapply (relates_bind (touches_only pm pr) (touches_only pm pr) (touches_only pm pr));
      [|intros ?|exact (touches_only_trans pm pr)]
  | |- relates (touches_only _ _) (match ?x with _ => _ end) => destruct x
  | |- _ =>
      first
        [ apply touches_ret | apply touches_fault | apply touches_emit
        | apply touches_run_engine | apply touches_run_engine_ | apply touches_fn_ptr
        | apply touches_load_model | apply touches_load_rec
        | apply touches_store_model; reflexivity
        | apply touches_store_rec; reflexivity
        | apply touches_release_model; reflexivity
        | apply touches_release_rec; reflexivity ]
  end.

(** Each destructor writes to its own context and to no other, at every
    point of its run. *)
Lemma recognizer_delete_touches a :
  relates (touches_only (fun _ => False) (fun b => b = a))
          (@recognizer_delete EngineState (Some a)).
Proof.
  unfold recognizer_delete, ckfree_rec, Tcl_DecrRefCount. touches_go.
Qed.

Lemma model_delete_touches a :
  relates (touches_only (fun b => b = a) (fun _ => False))
          (@model_delete EngineState (Some a)).
Proof.
  unfold model_delete, ckfree_model, ckfree_string, Tcl_DecrRefCount. touches_go.
Qed.

Lemma tidy_trans w1 w2 w3 : tidy w1 w2 -> tidy w2 w3 -> tidy w1 w3.
Proof.
  intros (Hrem1 & new1 & Htr1 & Hobs1) (Hrem2 & new2 & Htr2 & Hobs2).
  split; [now apply only_removes_trans with w2|].
  exists (new1 ++ new2). split; [now rewrite Htr2, Htr1, app_assoc|].
  destruct Hrem1 as (Hr1 & Hm1 & _). destruct Hrem2 as (Hr2 & Hm2 & _).
  apply Forall_app. split.
  - eapply Forall_impl; [exact Hobs1|]. intros em [Hrec Hmod]. split; intros b c Hb.
    + destruct (Hrec b c Hb) as [Hsame|Hgone]; [now left|right].
      destruct (recognizers (mem w3) !! b) as [c3|] eqn:H3; [|reflexivity].
      pose proof (lookup_weaken _ _ _ _ H3 Hr2). congruence.
    + destruct (Hmod b c Hb) as [Hsame|Hgone]; [now left|right].
      destruct (models (mem w3) !! b) as [c3|] eqn:H3; [|reflexivity].
      pose proof (lookup_weaken _ _ _ _ H3 Hm2). congruence.
  - eapply Forall_impl; [exact Hobs2|]. intros em [Hrec Hmod]. split; intros b c Hb.
    + destruct (Hrec b c Hb) as [Hsame|Hgone]; [left|now right].
      eapply lookup_weaken; eassumption.
    + destruct (Hmod b c Hb) as [Hsame|Hgone]; [left|now right].
      eapply lookup_weaken; eassumption.
Qed.

(** Memory and commands as they were, seen as such by every call. *)
Lemma tidy_still w w' :
  mem w' = mem w -> commands w' = commands w ->
  (exists new, trace w' = trace w ++ new /\ Forall (fun em => em.2 = mem w) new) ->
  tidy w w'.
Proof.
  intros Hm Hc (new & Htr & Hobs). split.
  - apply same_memory_only_removes. now split.
  - exists new. split; [exact Htr|]. eapply Forall_impl; [exact Hobs|].
    intros em ->. split; intros b c Hb; now left.
Qed.

Lemma tidy_refl w : tidy w w.
Proof.
  apply tidy_still; [reflexivity..|]. exists []. split; [now rewrite app_nil_r|constructor].
Qed.

Lemma tidy_quiet w w' : mem w' = mem w -> commands w' = commands w -> trace w' = trace w -> tidy w w'.
Proof.
  intros Hm Hc Htr. apply tidy_still; [exact Hm|exact Hc|].
  exists []. split; [now rewrite app_nil_r|constructor].
Qed.

Lemma tidy_ret {A} (x : A) : relates tidy (mret x : M EngineState A).
Proof. intros w. apply tidy_refl. Qed.

Lemma tidy_fault {A} k : relates tidy (@fault EngineState A k).
Proof. now intros w. Qed.

Lemma tidy_emit e : relates tidy (@emit EngineState e).
Proof.
  intros w. cbn. apply tidy_still; [reflexivity..|].
  exists [(e, mem w)]. split; [reflexivity|]. now repeat constructor.
Qed.

Lemma tidy_run_engine {A} (f : EngineState -> A * EngineState) : relates tidy (run_engine f).
Proof. intros w. now apply tidy_quiet. Qed.

Lemma tidy_run_engine_ (f : EngineState -> EngineState) : relates tidy (run_engine_ f).
Proof. intros w. now apply tidy_quiet. Qed.

Lemma tidy_deref p : relates tidy (@deref EngineState p).
Proof. destruct p; [apply tidy_ret|apply tidy_fault]. Qed.

Lemma tidy_fn_ptr {F} (f : option F) : relates tidy (@fn_ptr EngineState F f).
Proof. destruct f; [apply tidy_ret|apply tidy_fault]. Qed.

Lemma tidy_table (api : option (EngineAPI EngineState)) : relates tidy (table api).
Proof. destruct api; [apply tidy_ret|apply tidy_fault]. Qed.

Lemma tidy_arg objv i : relates tidy (@arg EngineState objv i).
Proof. unfold arg. destruct (objv !! i); [apply tidy_ret|apply tidy_fault]. Qed.

Lemma tidy_load_model {A} a (field : ModelCtx EngineState -> A) :
  relates tidy (load_model a field).
Proof.
  intros w. unfold load_model. destruct (models (mem w) !! a); [apply tidy_refl|exact I].
Qed.

Lemma tidy_load_rec {A} a (field : RecognizerCtx -> A) :
  relates tidy (@load_rec EngineState A a field).
Proof.
  intros w. unfold load_rec. destruct (recognizers (mem w) !! a); [apply tidy_refl|exact I].
Qed.

Lemma recognizer_delete_tidy cd : relates tidy (@recognizer_delete EngineState cd).
Proof.
  destruct cd as [a|]; [|apply tidy_ret].
  intros w. pose proof (recognizer_delete_touches a w) as Ht.
  pose proof (recognizer_delete_only_removes (Some a) w) as Hrem.
  destruct (recognizer_delete (Some a) w) as [[] w'|] eqn:Hrun; [|exact I].
  destruct (recognizer_delete_mem _ _ _ Hrun) as (Hrecs & _ & _).
  destruct Ht as (_ & new & Htr & Hobs). split; [exact Hrem|].
  exists new. split; [exact Htr|]. eapply Forall_impl; [exact Hobs|].
  intros em [Hmod Hrec]. split; intros b c Hb.
  - destruct (decide (b = a)) as [->|Hne].
    + right. rewrite Hrecs. apply lookup_delete_eq.
    + left. now rewrite <- (Hrec b Hne).
  - left. rewrite <- (Hmod b); [exact Hb|tauto].
Qed.

Lemma model_delete_tidy cd : relates tidy (@model_delete EngineState cd).
Proof.
  destruct cd as [a|]; [|apply tidy_ret].
  intros w. pose proof (model_delete_touches a w) as Ht.
  pose proof (model_delete_only_removes (Some a) w) as Hrem.
  destruct (model_delete (Some a) w) as [[] w'|] eqn:Hrun; [|exact I].
  destruct (model_delete_mem _ _ _ Hrun) as (Hmodels & _ & _).
  destruct Ht as (_ & new & Htr & Hobs). split; [exact Hrem|].
  exists new. split; [exact Htr|]. eapply Forall_impl; [exact Hobs|].
  intros em [Hmod Hrec]. split; intros b c Hb.
  - left. rewrite <- (Hrec b); [exact Hb|tauto].
  - destruct (decide (b = a)) as [->|Hne].
    + right. rewrite Hmodels. apply lookup_delete_eq.
    + left. now rewrite <- (Hmod b Hne).
Qed.

Lemma Tcl_DeleteCommand_tidy name : relates tidy (@Tcl_DeleteCommand EngineState name).
Proof.
  intros w. rewrite Tcl_DeleteCommand_runs.
  assert (tidy w (mkWorld (mem w) (delete name (commands w)) (engine w)
                          (trace w ++ [(Host_DeleteCommand name, mem w)]))) as Hfirst.
  { split.
    - split; [reflexivity|]. split; [reflexivity|apply delete_subseteq].
    - exists [(Host_DeleteCommand name, mem w)]. split; [reflexivity|].
      constructor; [|constructor]. split; intros b c Hb; now left. }
  destruct (commands w !! name) as [[a|a]|].
  - match goal with
    | |- match model_delete _ ?W with _ => _ end =>
        pose proof (model_delete_tidy (Some a) W) as H;
        destruct (model_delete (Some a) W); [|exact I]
    end.
    eapply tidy_trans; [exact Hfirst|exact H].
  - match goal with
    | |- match recognizer_delete _ ?W with _ => _ end =>
        pose proof (recognizer_delete_tidy (Some a) W) as H;
        destruct (recognizer_delete (Some a) W); [|exact I]
    end.
    eapply tidy_trans; [exact Hfirst|exact H].
  - pose proof (tidy_emit (Host_DeleteCommand name) w) as H. exact H.
Qed.

Ltac tidy_go :=
  repeat lazymatch goal with
  | |- relates tidy (mbind _ _) =>
      eapply (relates_bind tidy tidy tidy); [|intros ?|exact tidy_trans]
  | |- relates tidy (match ?x with _ => _ end) => destruct x
  | |- _ =>
      first
        [ match goal with H : _ |- _ => solve [apply H] end
        | apply tidy_ret | apply tidy_fault | apply tidy_emit
        | apply tidy_run_engine | apply tidy_run_engine_
        | apply tidy_deref | apply tidy_fn_ptr | apply tidy_table | apply tidy_arg
        | apply tidy_load_model | apply tidy_load_rec ]
  end.

Lemma RecognizerObjCmd_tidy cd objv : relates tidy (@RecognizerObjCmd EngineState cd objv).
Proof.
  pose proof Tcl_DeleteCommand_tidy.
  unfold RecognizerObjCmd, RecognizerObjCmd_open. unfold_host. cbv zeta. tidy_go.
Qed.

Lemma ModelObjCmd_tidy cd objv : relates tidy (@ModelObjCmd EngineState cd objv).
Proof.
  pose proof Tcl_DeleteCommand_tidy.
  unfold ModelObjCmd. unfold_host. cbv zeta. tidy_go.
Qed.

Lemma step_tidy w w' : step w w' -> tidy w w'.
Proof.
  intros [cd objv w0 rc w1 Hrun|cd objv w0 rc w1 Hrun|cd w0 w1 Hrun|cd w0 w1 Hrun].
  - pose proof (RecognizerObjCmd_tidy cd objv w0) as H. now rewrite Hrun in H.
  - pose proof (ModelObjCmd_tidy cd objv w0) as H. now rewrite Hrun in H.
  - pose proof (recognizer_delete_tidy cd w0) as H. now rewrite Hrun in H.
  - pose proof (model_delete_tidy cd w0) as H. now rewrite Hrun in H.
Qed.

Lemma steps_tidy w w' : rtc step w w' -> tidy w w'.
Proof.
  induction 1 as [w|w w1 w2 Hstep _ IH].
  - apply tidy_refl.
  - apply (tidy_trans w w1 w2); [apply step_tidy, Hstep|exact IH].
Qed.

(** X11: over any sequence of handler and destructor runs, a context that
    is still in the heap at the end is field for field what it was at the
    start, so if every live recognizer reads closed = 0 at the start,
    every live recognizer does at the end.  On the way a call may observe
    a context in a changed state (the recognizer destructor makes its
    calls with closed = 1 already stored), but only a context that is
    gone from the heap at the end: the code of the file writes to a
    context only in the destructor run that frees it.  (Contexts that the
    create_recognizer entry of an engine sets up are outside the model.) *)
Theorem surviving_contexts_are_unchanged w w' :
  rtc step w w' ->
  (forall a c c', recognizers (mem w) !! a = Some c ->
                  recognizers (mem w') !! a = Some c' -> c' = c)
  /\ (forall a c c', models (mem w) !! a = Some c ->
                     models (mem w') !! a = Some c' -> c' = c)
  /\ ((forall a c, recognizers (mem w) !! a = Some c -> closed c = 0) ->
      forall a c, recognizers (mem w') !! a = Some c -> closed c = 0)
  /\ (exists new, trace w' = trace w ++ new
                  /\ Forall (fun em => settled w w' em.2) new)
  /\ ((forall a c, recognizers (mem w) !! a = Some c -> closed c = 0) ->
      exists new, trace w' = trace w ++ new
                  /\ Forall (fun em => forall a c,
                               recognizers em.2 !! a = Some c -> closed c <> 0 ->
                               recognizers (mem w') !! a = None) new).
Proof.
  intros Hsteps. destruct (steps_only_remove _ _ Hsteps) as (Hrecs & Hmodels & _).
  destruct (steps_tidy _ _ Hsteps) as (_ & new & Htr & Hobs).
  split; [|split; [|split; [|split]]].
  - intros a c c' Hc Hc'. pose proof (lookup_weaken _ _ _ _ Hc' Hrecs). congruence.
  - intros a c c' Hc Hc'. pose proof (lookup_weaken _ _ _ _ Hc' Hmodels). congruence.
  - intros Hopen a c Hc. apply (Hopen a). eapply lookup_weaken; eassumption.
  - now exists new.
  - intros Hopen. exists new. split; [exact Htr|].
    eapply Forall_impl; [exact Hobs|]. intros em [Hrec _] a c Hc Hset.
    destruct (Hrec a c Hc) as [Hsame|Hgone]; [|exact Hgone].
    now destruct Hset; apply (Hopen a).
Qed.

End Properties.

(** * The theorems on the concrete world *)

Lemma RecognizerObjCmd_closed_witness :
  RecognizerObjCmd (Some 3%positive) [Sample.str "r2"; Sample.str "text"] Sample.w0
    = Ok TCL_ERROR (log (Host_AppendResult ["recognizer closed"]) Sample.w0)
  /\ RecognizerObjCmd None [Sample.str "r2"] Sample.w0
    = Ok TCL_ERROR (log (Host_AppendResult ["recognizer closed"]) Sample.w0).
Proof.
  split.
  - apply (RecognizerObjCmd_closed (Some 3%positive) _ Sample.w0).
    right. exists 3%positive, Sample.r2.
    split; [reflexivity|]. split; [reflexivity|]. discriminate.
  - apply (RecognizerObjCmd_closed None _ Sample.w0). now left.
Defined.

Lemma create_recognizer_dispatch_witness :
  ModelObjCmd (Some 1%positive) Sample.rate_16000 Sample.w0
    = Ok TCL_OK
         (with_engine 1%nat
            (log (Call_create_recognizer 1%positive 16000)
               (log (Host_GetIntFromObj (Sample.int "16000" 16000)) Sample.w0)))
  /\ ModelObjCmd (Some 1%positive) Sample.rate_16000
       (Sample.with_table (Some Sample.vosk_no_create))
    = Ok TCL_ERROR
         (log (Host_AppendResult
                 ["create_recognizer not implemented for engine: "; "vosk"])
            (log (Host_GetIntFromObj (Sample.int "16000" 16000))
               (Sample.with_table (Some Sample.vosk_no_create)))).
Proof.
  split.
  - exact (proj1 (create_recognizer_dispatch Sample.w0 1%positive Sample.m1
                    (Sample.str "m1") (Sample.str "create_recognizer")
                    (Sample.str "-rate") (Sample.int "16000" 16000) 16000
                    eq_refl eq_refl eq_refl eq_refl)).
  - exact (proj1 (create_recognizer_dispatch
                    (Sample.with_table (Some Sample.vosk_no_create)) 1%positive
                    (mkModelCtx (model Sample.m1) (model_path Sample.m1)
                       (engine_type Sample.m1) (cmdname Sample.m1)
                       (Some Sample.vosk_no_create))
                    (Sample.str "m1") (Sample.str "create_recognizer")
                    (Sample.str "-rate") (Sample.int "16000" 16000) 16000
                    eq_refl eq_refl eq_refl eq_refl)).
Defined.

Lemma accept_waveform_invalid_witness :
  RecognizerObjCmd (Some 2%positive)
      [Sample.str "r1"; Sample.str "accept-waveform"; Sample.blob []] Sample.w0
    = Ok TCL_ERROR (log (Host_AppendResult ["invalid audio data"]) Sample.w0).
Proof.
  apply (accept_waveform_invalid Sample.w0 2%positive Sample.r1 1%positive Sample.m1).
  - repeat split.
  - reflexivity.
  - right. cbn. lia.
Defined.

Lemma text_result_never_null_witness :
  RecognizerObjCmd (Some 2%positive) [Sample.str "r1"; Sample.str "text"] Sample.w0
    = Ok TCL_OK
         (log (Host_SetObjResult (StringObj EmptyString))
            (with_engine 1%nat (log (Call_get_text 2%positive) Sample.w0)))
  /\ RecognizerObjCmd (Some 2%positive) [Sample.str "r1"; Sample.str "final-result"] Sample.w0
    = Ok TCL_OK
         (log (Host_SetObjResult (StringObj "hello world"))
            (with_engine 1%nat (log (Call_get_final 2%positive) Sample.w0))).
Proof.
  split.
  - apply (text_result_never_null Sample.w0 2%positive Sample.r1 1%positive Sample.m1
             Sample.vosk _ (Sample.str "text") false (fun _ n => (None, S n)));
      [repeat split | reflexivity..].
  - apply (text_result_never_null Sample.w0 2%positive Sample.r1 1%positive Sample.m1
             Sample.vosk _ (Sample.str "final-result") true
             (fun _ n => (Some "hello world", S n)));
      [repeat split | reflexivity..].
Defined.

(** The claim C5 as it was stated fails on the code: [r1 text extra] is
    not rejected for its argument count; it runs as [r1 text] does and
    reaches the engine. *)
Lemma text_accepts_extra_argument :
  RecognizerObjCmd (Some 2%positive)
      [Sample.str "r1"; Sample.str "text"; Sample.str "extra"] Sample.w0
    = Ok TCL_OK
         (log (Host_SetObjResult (StringObj EmptyString))
            (with_engine 1%nat (log (Call_get_text 2%positive) Sample.w0)))
  /\ ~ wrong_arity Sample.w0
         [Sample.str "r1"; Sample.str "text"; Sample.str "extra"]
         (RecognizerObjCmd (Some 2%positive)
            [Sample.str "r1"; Sample.str "text"; Sample.str "extra"] Sample.w0).
Proof.
  split; [reflexivity|].
  intros (n & usage & H). vm_compute in H. discriminate H.
Qed.

Lemma arity_checked_where_arguments_are_read_witness :
  RecognizerObjCmd (Some 2%positive)
      [Sample.str "r1"; Sample.str "accept-waveform"] Sample.w0
    = Ok TCL_ERROR
         (log (Host_WrongNumArgs 2 [Sample.str "r1"; Sample.str "accept-waveform"]
                 "audio_data") Sample.w0)
  /\ RecognizerObjCmd (Some 2%positive)
       [Sample.str "r1"; Sample.str "text"; Sample.str "extra"] Sample.w0
     = RecognizerObjCmd (Some 2%positive) [Sample.str "r1"; Sample.str "text"] Sample.w0.
Proof.
  split.
  - apply (proj1 (proj2 (arity_checked_where_arguments_are_read Sample.w0 2%positive _))
             (Sample.str "accept-waveform") Sample.r1 1%positive Sample.m1);
      [reflexivity | reflexivity | cbn; lia | repeat split].
  - apply (proj1 (proj2 (proj2 (proj2 (proj2
             (arity_checked_where_arguments_are_read Sample.w0 2%positive _)))))
             (Sample.str "r1") (Sample.str "text") [Sample.str "extra"] eq_refl).
    apply list_elem_of_here.
Defined.

Lemma unknown_subcommand_witness :
  ModelObjCmd (Some 1%positive) [Sample.str "m1"; Sample.str "bogus-subcommand"] Sample.w0
    = Ok TCL_ERROR
         (log (Host_AppendResult
                 [("unknown subcommand " ++ dquote)%string; "bogus-subcommand"; dquote])
            Sample.w0)
  /\ RecognizerObjCmd (Some 2%positive)
       [Sample.str "r1"; Sample.str "bogus-subcommand"] Sample.w0
    = Ok TCL_ERROR
         (log (Host_AppendResult
                 [("unknown subcommand " ++ dquote)%string; "bogus-subcommand"; dquote])
            Sample.w0).
Proof.
  split.
  - apply (proj1 (unknown_subcommand Sample.w0
                    [Sample.str "m1"; Sample.str "bogus-subcommand"] _ eq_refl)).
    apply (bool_decide_unpack _). vm_compute. exact I.
  - apply (proj1 (proj2 (unknown_subcommand Sample.w0
                    [Sample.str "r1"; Sample.str "bogus-subcommand"] _ eq_refl))
             ltac:(apply (bool_decide_unpack _); vm_compute; exact I)
             2%positive Sample.r1 1%positive Sample.m1).
    repeat split.
Defined.

Lemma destructors_guard_every_release_witness :
  (exists w',
     model_delete (Some 1%positive) Sample.w0 = Ok tt w'
     /\ events w' = [Call_model_free 7%positive;
                     Host_ckfree (StringBlock "/models/vosk");
                     Host_ckfree (StringBlock "vosk");
                     Host_DecrRefCount (Sample.str "m1");
                     Host_ckfree (ModelCtxBlock 1%positive)])
  /\ (exists w',
     recognizer_delete (Some 3%positive) Sample.w0 = Ok tt w'
     /\ events w' = [Host_ckfree (RecognizerCtxBlock 3%positive)]
     /\ engine_calls w' = engine_calls Sample.w0).
Proof.
  split.
  - destruct (proj1 (proj2 (proj2 (destructors_guard_every_release Sample.w0 1%positive)))
                Sample.m1 eq_refl) as (w' & Hrun & Hev & _).
    + intros api _ [= <-]. now eexists.
    + exists w'. split; [exact Hrun|exact Hev].
  - destruct (proj2 (proj2 (proj2 (destructors_guard_every_release Sample.w0 3%positive)))
                Sample.r2 eq_refl) as (w' & Hrun & Hev & Hnone & _).
    + intros m Hhandle. now destruct Hhandle.
    + intros api Hhandle. now destruct Hhandle.
    + exists w'. split; [exact Hrun|]. split; [exact Hev|]. now apply Hnone.
Defined.

Lemma closed_flag_is_monotone_witness :
  RecognizerObjCmd (Some 2%positive) [Sample.str "r1"; Sample.str "close"] Sample.w0
    = Ok TCL_OK Sample.w1
  /\ closed_monotone (mem Sample.w0) (mem Sample.w1)
  /\ monotone_run Sample.w0 Sample.w1
  /\ (forall c', recognizers (mem Sample.w1) !! 3%positive = Some c' -> closed c' <> 0).
Proof.
  assert (RecognizerObjCmd (Some 2%positive) [Sample.str "r1"; Sample.str "close"] Sample.w0
            = Ok TCL_OK Sample.w1) as Hrun by reflexivity.
  split; [exact Hrun|].
  destruct (proj1 (closed_flag_is_monotone Sample.w0 Sample.w1))
    as (Hmono & _ & Hrun' & Hflag).
  - apply rtc_once. exact (step_RecognizerObjCmd _ _ _ _ _ Hrun).
  - split; [exact Hmono|]. split; [exact Hrun'|]. intros c'.
    apply (Hflag 3%positive Sample.r2 c'); [reflexivity|discriminate].
Defined.

Lemma accept_waveform_forwards_witness :
  RecognizerObjCmd (Some 2%positive)
      [Sample.str "r1"; Sample.str "accept-waveform"; Sample.blob Sample.two_bytes] Sample.w0
    = Ok TCL_OK
         (log (Host_SetObjResult (BooleanObj false))
            (with_engine 1%nat
               (log (Call_accept_waveform (Some 9%positive) Sample.two_bytes 2) Sample.w0))).
Proof.
  apply (accept_waveform_forwards Sample.w0 2%positive Sample.r1 1%positive Sample.m1
           Sample.vosk (fun _ _ _ n => (0, S n))
           (Sample.str "r1") (Sample.str "accept-waveform") (Sample.blob Sample.two_bytes)
           Sample.two_bytes 2);
    [repeat split | reflexivity | reflexivity | reflexivity | reflexivity | lia].
Defined.

Lemma parent_read_before_dispatch_witness :
  RecognizerObjCmd (Some 2%positive) [Sample.str "r1"; Sample.str "close"] Sample.orphan
    = Fault NullPointer
  /\ RecognizerObjCmd (Some 2%positive) [Sample.str "r1"; Sample.str "bogus"] Sample.orphan
    = Fault NullPointer.
Proof.
  split.
  - apply (proj1 (parent_read_before_dispatch Sample.orphan 2%positive _
                    [Sample.str "r1"; Sample.str "close"] (Sample.str "close")
                    eq_refl eq_refl eq_refl)).
    reflexivity.
  - apply (proj1 (parent_read_before_dispatch Sample.orphan 2%positive _
                    [Sample.str "r1"; Sample.str "bogus"] (Sample.str "bogus")
                    eq_refl eq_refl eq_refl)).
    reflexivity.
Defined.

(** * The further properties on the concrete world *)

Lemma reset_forwards_witness :
  RecognizerObjCmd (Some 2%positive) [Sample.str "r1"; Sample.str "reset"] Sample.w0
    = Ok TCL_OK
         (log (Host_SetObjResult (StringObj "ok"))
            (with_engine 1%nat (log (Call_reset 2%positive) Sample.w0))).
Proof.
  apply (reset_forwards Sample.w0 2%positive Sample.r1 1%positive Sample.m1
           Sample.vosk (fun _ n => S n)
           [Sample.str "r1"; Sample.str "reset"] (Sample.str "reset"));
    [repeat split | reflexivity..].
Defined.

Lemma recognizer_handler_trusts_engine_table_witness :
  RecognizerObjCmd (Some 2%positive) [Sample.str "r1"; Sample.str "text"]
      (Sample.with_table None)
    = Fault NullPointer
  /\ RecognizerObjCmd (Some 2%positive) [Sample.str "r1"; Sample.str "text"]
       (Sample.with_table (Some Sample.vosk_no_text))
    = Fault NullFunction.
Proof.
  split.
  - apply (proj1 (recognizer_handler_trusts_engine_table (Sample.with_table None)
                    2%positive Sample.r1 1%positive
                    (mkModelCtx (model Sample.m1) (model_path Sample.m1)
                       (engine_type Sample.m1) (cmdname Sample.m1) None)
                    [Sample.str "r1"; Sample.str "text"] (Sample.str "text")
                    ltac:(repeat split) eq_refl));
      [reflexivity | now left].
  - apply (proj2 (recognizer_handler_trusts_engine_table
                    (Sample.with_table (Some Sample.vosk_no_text))
                    2%positive Sample.r1 1%positive
                    (mkModelCtx (model Sample.m1) (model_path Sample.m1)
                       (engine_type Sample.m1) (cmdname Sample.m1)
                       (Some Sample.vosk_no_text))
                    [Sample.str "r1"; Sample.str "text"] (Sample.str "text")
                    ltac:(repeat split) eq_refl) Sample.vosk_no_text);
      [reflexivity | left; now split].
Defined.

Lemma create_recognizer_rejects_malformed_rate_witness :
  ModelObjCmd (Some 1%positive)
      [Sample.str "m1"; Sample.str "create_recognizer"; Sample.str "-rate";
       Sample.str "fast"] Sample.w0
    = Ok TCL_ERROR (log (Host_GetIntFromObj (Sample.str "fast")) Sample.w0).
Proof.
  apply (create_recognizer_rejects_malformed_rate Sample.w0 1%positive
           (Sample.str "m1") (Sample.str "create_recognizer") (Sample.str "-rate")
           (Sample.str "fast"));
    reflexivity.
Defined.

Lemma destructors_free_only_their_own_context_witness :
  recognizers (mem Sample.w_r1_deleted) = delete 2%positive (recognizers (mem Sample.w0))
  /\ models (mem Sample.w_r1_deleted) = models (mem Sample.w0)
  /\ recognizers (mem Sample.w_m1_deleted) = recognizers (mem Sample.w0).
Proof.
  destruct (proj1 (destructors_free_only_their_own_context 2%positive
                     Sample.w0 Sample.w_r1_deleted)) as (Hr & Hm & _);
    [vm_compute; reflexivity|].
  destruct (proj2 (destructors_free_only_their_own_context 1%positive
                     Sample.w0 Sample.w_m1_deleted)) as (_ & Hr' & _);
    [vm_compute; reflexivity|].
  split; [exact Hr|]. split; [exact Hm|exact Hr'].
Defined.

Lemma recognizer_close_destroys_witness :
  exists w',
    RecognizerObjCmd (Some 2%positive) [Sample.str "r1"; Sample.str "close"] Sample.w0
      = Ok TCL_OK w'
    /\ events w' = [Host_DeleteCommand "r1"; Call_recognizer_free 9%positive;
                    Host_DecrRefCount (Sample.str "r1");
                    Host_ckfree (RecognizerCtxBlock 2%positive);
                    Host_SetObjResult (StringObj "ok")]
    /\ recognizers (mem w') !! 2%positive = None.
Proof.
  destruct (recognizer_close_destroys Sample.w0 2%positive Sample.r1 1%positive Sample.m1
              (Sample.str "r1") (Sample.str "close") [])
    as (w' & Hrun & Hev & Hrecs & _).
  - repeat split.
  - reflexivity.
  - reflexivity.
  - intros api _ [= <-]. now eexists.
  - exists w'. split; [exact Hrun|]. split; [exact Hev|].
    rewrite Hrecs. apply lookup_delete_eq.
Defined.

Lemma model_close_destroys_witness :
  exists w',
    ModelObjCmd (Some 1%positive) [Sample.str "m1"; Sample.str "close"] Sample.w0
      = Ok TCL_OK w'
    /\ models (mem w') !! 1%positive = None
    /\ recognizers (mem w') = recognizers (mem Sample.w0).
Proof.
  destruct (model_close_destroys Sample.w0 1%positive Sample.m1
              (Sample.str "m1") (Sample.str "close") [])
    as (w' & Hrun & _ & Hmodels & Hrecs & _).
  - reflexivity.
  - reflexivity.
  - reflexivity.
  - intros api _ [= <-]. now eexists.
  - exists w'. split; [exact Hrun|]. split; [|exact Hrecs].
    rewrite Hmodels. apply lookup_delete_eq.
Defined.

Lemma close_reports_ok_when_nothing_is_deleted_witness :
  RecognizerObjCmd (Some 2%positive) [Sample.str "alias"; Sample.str "close"] Sample.w0
    = Ok TCL_OK
         (log (Host_SetObjResult (StringObj "ok"))
            (log (Host_DeleteCommand "alias") Sample.w0)).
Proof.
  apply (proj1 (proj2 (close_reports_ok_when_nothing_is_deleted Sample.w0 2%positive
                         (Sample.str "alias") (Sample.str "close") [] eq_refl eq_refl))
           Sample.r1 1%positive Sample.m1).
  repeat split.
Defined.

Lemma recognizer_dangles_after_model_delete_witness :
  RecognizerObjCmd (Some 2%positive) [Sample.str "r1"; Sample.str "text"]
      Sample.w_m1_deleted
    = Fault DanglingPointer
  /\ recognizer_delete (Some 2%positive) Sample.w_m1_deleted = Fault DanglingPointer.
Proof.
  destruct (recognizer_dangles_after_model_delete Sample.w0 Sample.w_m1_deleted
              2%positive Sample.r1 1%positive Sample.m1
              [Sample.str "r1"; Sample.str "text"] (Sample.str "text"))
    as (_ & Hcmd & Hdel).
  - repeat split.
  - vm_compute. reflexivity.
  - reflexivity.
  - split; [exact Hcmd|]. apply Hdel. discriminate.
Defined.

Lemma one_engine_call_per_operation_witness :
  at_most_one_engine_call Sample.w0 Sample.w_r1_deleted.
Proof.
  apply one_engine_call_per_operation.
  apply (step_recognizer_delete (Some 2%positive)). vm_compute. reflexivity.
Defined.

Lemma only_close_changes_memory_witness :
  mem (log (Host_SetObjResult (StringObj "ok"))
         (with_engine 1%nat (log (Call_reset 2%positive) Sample.w0)))
    = mem Sample.w0.
Proof.
  apply (only_close_changes_memory (Some 2%positive)
           [Sample.str "r1"; Sample.str "reset"] Sample.w0 TCL_OK).
  - intros o1 [= <-]. discriminate.
  - vm_compute. reflexivity.
Defined.

Lemma surviving_contexts_are_unchanged_witness :
  map_Forall (fun _ c => closed c = 0) (recognizers (mem Sample.orphan_m1_deleted)).
Proof.
  intros a c Hc.
  apply (proj1 (proj2 (proj2 (surviving_contexts_are_unchanged Sample.orphan
                         Sample.orphan_m1_deleted
                         ltac:(apply rtc_once;
                               apply (step_model_delete (Some 1%positive));
                               vm_compute; reflexivity))))
           ltac:(intros b cb Hb;
                 change (({[2%positive :=
                              mkRecognizerCtx (recognizer Sample.r1) None None
                                (rec_cmdname Sample.r1) 0]}
                          : gmap addr RecognizerCtx) !! b = Some cb) in Hb;
                 apply lookup_singleton_Some in Hb as [_ <-];
                 reflexivity)
           a c Hc).
Defined.
